(** * SequelizeChangeTracker: a shallow embedding of [src/index.js]

    The class [SequelizeChangeTracker] keeps two registers of subscriptions
    (by subscription id and by resource), a map of depending models built
    from the Sequelize associations, and turns model lifecycle events into
    ['data-changed'] events.  This file embeds the constructor, the two
    registers and their operations, and both revisions of
    [notifySubscribers] that the source file contains.

    Modelling conventions.
    - A JavaScript object used as a map is a [gmap string _] of its own
      properties; a property key is the string JavaScript coerces the
      subscript to ([to_key]).  Every such object also inherits the
      properties of [Object.prototype] ([constructor], [toString],
      [__proto__], ...): under one of these names ([inherited]) a read that
      finds no own property yields a function (the prototype object for
      [__proto__]), which is neither [undefined] nor an array.  Subscription
      ids, instance ids and foreign-key values may be such names.  Model
      names are taken not to be: the class assigns to properties named after
      models, and assigning to [__proto__] replaces the prototype.
    - A JavaScript array is a [list]; [push] appends at the end.
    - A method runs on the tracker ([this]) and may throw: [M A] threads the
      tracker, collects the emitted events and carries the result or the
      thrown error.  Mutations made before a throw stay in the tracker.
    - The listeners of the emitted events are outside the class; an emitted
      event is recorded in the order of emission. *)

From stdpp Require Import gmap strings list pretty.

Open Scope Z_scope.

(** ** Values used as identifiers *)

(** Subscription ids, instance ids and foreign-key fields are JavaScript
    values: the tests use numbers for subscription ids and UUID strings for
    instance ids, an absent property reads as [undefined], and a column may
    hold [null].  A number is an integer that a Number holds exactly
    ([Number.isSafeInteger]: up to 2^53 - 1 in absolute value); JavaScript
    prints these in plain decimal notation. *)
Definition isSafeInteger (n : Z) : bool := Z.abs n <=? 9007199254740991.

Inductive jsval : Type :=
  | JUndefined
  | JNull
  | JStr (s : string)
  | JNumber (n : Z) (safe : Is_true (isSafeInteger n)).

(** The number [n], for a safe integer given by its numeral. *)
Abbreviation JNum n := (JNumber n I).

#[global] Instance jsval_eq_dec : EqDecision jsval.
Proof.
  intros x y.
  destruct x as [| |s|n p], y as [| |s'|n' p'];
    try (right; discriminate); try (left; reflexivity).
  - destruct (decide (s = s')) as [Heq|Hne]; [left; by rewrite Heq|right; congruence].
  - destruct (decide (n = n')) as [Heq|Hne]; [left|right; congruence].
    revert p'. rewrite <- Heq. intros p'. f_equal. apply proof_irrel.
Defined.

(** [obj[v]]: the property key a value is coerced to. *)
Definition to_key (v : jsval) : string :=
  match v with
  | JUndefined => "undefined"
  | JNull => "null"
  | JStr s => s
  | JNumber n _ => pretty n
  end.

(** [! v] is [negb (truthy v)]. *)
Definition truthy (v : jsval) : bool :=
  match v with
  | JUndefined | JNull => false
  | JStr s => negb (bool_decide (s = EmptyString))
  | JNumber n _ => negb (bool_decide (n = 0))
  end.

(** [Array.prototype.includes]. *)
Definition includes {A} `{EqDecision A} (l : list A) (x : A) : bool :=
  bool_decide (x ∈ l).

(** [Array.prototype.findIndex]: the first index whose element satisfies
    the predicate, [-1] when there is none. *)
Fixpoint findIndex {A} (p : A → bool) (l : list A) : Z :=
  match l with
  | [] => -1
  | x :: l' => if p x then 0 else
                 let i := findIndex p l' in
                 if bool_decide (i = -1) then -1 else 1 + i
  end.

(** [arr.splice(i, 1)] for an index [i] found by [findIndex]. *)
Definition splice1 {A} (i : Z) (l : list A) : list A :=
  delete (Z.to_nat i) l.

(** [new Set(l)] in insertion order: [add] keeps the first occurrence. *)
Definition Set_add (s : list jsval) (x : jsval) : list jsval :=
  if includes s x then s else s ++ [x].

Definition new_Set (l : list jsval) : list jsval := foldl Set_add [] l.

(** ** Sequelize models and associations *)

Inductive associationKind : Type := BelongsTo | HasOne | HasMany | BelongsToMany.

#[global] Instance associationKind_eq_dec : EqDecision associationKind.
Proof. solve_decision. Defined.

(** An association with [association.source.name] and
    [association.target.name]. *)
Record association : Type := Association {
  kind : associationKind;
  source : string;
  target : string
}.

(** A model with [model.name] and [Object.values(model.associations)]. *)
Record model : Type := Model {
  name : string;
  associations : list association
}.

(** ** Operations, subscription objects and events *)

(** ['create'], ['update'] and ['delete']. *)
Inductive operation : Type := op_create | op_update | op_delete.

#[global] Instance operation_eq_dec : EqDecision operation.
Proof. solve_decision. Defined.

(** [static genericOperations] and [static specificOperations]. *)
Definition genericOperations : list operation := [op_create; op_delete].
Definition specificOperations : list operation := [op_update; op_delete].

(** The objects stored in [subscriptionsById]: [{ modelName, generic: true }]
    or [{ modelName, instanceId }].  A property the literal does not have
    reads as [undefined]: [so_generic = false] and [so_instanceId = JUndefined]. *)
Record subObj : Type := SubObj {
  so_modelName : string;
  so_generic : bool;
  so_instanceId : jsval
}.

#[global] Instance subObj_eq_dec : EqDecision subObj.
Proof. solve_decision. Defined.

(** The argument object of [findSubscriptionIndices] and
    [removeSubscription]. *)
Record subscriptionObject : Type := SubscriptionObject {
  subscriptionId : jsval;
  modelName : string;
  instanceId : jsval;
  generic : bool
}.

Inductive event : Type :=
  | DataChanged (op : operation) (model : string) (instance : gmap string jsval)
      (changedFields : list string) (subscriptionIds : list jsval)
  | SubscriptionsChanged (subscriptionId : jsval) (modelName : string)
      (instanceId : jsval) (generic : bool).

(** ** The tracker *)

Record tracker : Type := Tracker {
  modelNames : list string;
  dependingModelMap : gmap string (list string);
  subscriptionsByResource : gmap string (gmap string (list jsval));
  subscriptionsById : gmap string (list subObj)
}.

(** The class fields before the constructor body runs. *)
Definition fresh : tracker :=
  Tracker [] ∅ ∅ ∅.

Inductive error : Type :=
  | TypeError
  | Error (message : string).

#[global] Instance error_eq_dec : EqDecision error.
Proof. solve_decision. Defined.

Inductive outcome (A : Type) : Type :=
  | Returns (a : A)
  | Throws (e : error).
Arguments Returns {A} a.
Arguments Throws {A} e.

Record result (A : Type) : Type := Result {
  outcome_of : outcome A;
  final : tracker;
  emitted : list event
}.
Arguments Result {A} _ _ _.
Arguments outcome_of {A} _.
Arguments final {A} _.
Arguments emitted {A} _.

Definition M (A : Type) : Type := tracker → result A.

#[global] Instance M_ret : MRet M := λ A a st, Result (Returns a) st [].

#[global] Instance M_bind : MBind M := λ A B k m st,
  let r := m st in
  match outcome_of r with
  | Throws e => Result (Throws e) (final r) (emitted r)
  | Returns a =>
      let r' := k a (final r) in
      Result (outcome_of r') (final r') (emitted r ++ emitted r')
  end.

Definition throw {A} (e : error) : M A := λ st, Result (Throws e) st [].

Definition get : M tracker := λ st, Result (Returns st) st [].

Definition put (st' : tracker) : M unit := λ _, Result (Returns tt) st' [].

(** [this.emit( ... )]: the event is handed to the listeners. *)
Definition emit (e : event) : M unit := λ st, Result (Returns tt) st [e].

(** [for ( let x of l ) body]. *)
Fixpoint forOf {A} (l : list A) (body : A → M unit) : M unit :=
  match l with
  | [] => mret tt
  | x :: l' => body x;; forOf l' body
  end.

(** [for ( let x of arr ) body] where the body may change the array: the
    array iterator keeps an index and reads the current array at every
    step.  The loop answers [true] when the iterator is done and [false]
    when the fuel ran out first. *)
Fixpoint forOfLive {A} (fuel : nat) (arr : tracker → list A) (i : nat)
    (body : A → M unit) : M bool :=
  match fuel with
  | O => mret false
  | S fuel' =>
      st ← get;
      match arr st !! i with
      | None => mret true
      | Some x => body x;; forOfLive fuel' arr (S i) body
      end
  end.

(** Assignments to the fields of [this]. *)
Definition set_modelNames (v : list string) : M unit :=
  st ← get;
  put (Tracker v (dependingModelMap st) (subscriptionsByResource st) (subscriptionsById st)).

Definition set_dependingModelMap (v : gmap string (list string)) : M unit :=
  st ← get;
  put (Tracker (modelNames st) v (subscriptionsByResource st) (subscriptionsById st)).

Definition set_subscriptionsByResource (v : gmap string (gmap string (list jsval))) : M unit :=
  st ← get;
  put (Tracker (modelNames st) (dependingModelMap st) v (subscriptionsById st)).

Definition set_subscriptionsById (v : gmap string (list subObj)) : M unit :=
  st ← get;
  put (Tracker (modelNames st) (dependingModelMap st) (subscriptionsByResource st) v).

(** [this.subscriptionsByResource[ modelName ]], about to be subscripted:
    subscripting [undefined] throws a TypeError. *)
Definition resource (modelName : string) : M (gmap string (list jsval)) :=
  st ← get;
  match subscriptionsByResource st !! modelName with
  | Some res => mret res
  | None => throw TypeError
  end.

(** [this.subscriptionsByResource[ modelName ][ modelProp ].push( id )]. *)
Definition resource_push (modelName modelProp : string) (id : jsval) : M unit :=
  res ← resource modelName;
  match res !! modelProp with
  | Some arr =>
      st ← get;
      set_subscriptionsByResource
        (<[modelName := <[modelProp := arr ++ [id]]> res]> (subscriptionsByResource st))
  | None => throw TypeError
  end.

(** [this.subscriptionsById[ subscriptionId ].push( subObj )]. *)
Definition byId_push (subscriptionId : jsval) (o : subObj) : M unit :=
  st ← get;
  match subscriptionsById st !! to_key subscriptionId with
  | Some arr =>
      set_subscriptionsById (<[to_key subscriptionId := arr ++ [o]]> (subscriptionsById st))
  | None => throw TypeError
  end.

(** The names of the properties of [Object.prototype]. *)
Definition inherited (key : string) : bool :=
  bool_decide (key ∈ ["constructor"; "hasOwnProperty"; "isPrototypeOf";
                      "propertyIsEnumerable"; "toLocaleString"; "toString";
                      "valueOf"; "__defineGetter__"; "__defineSetter__";
                      "__lookupGetter__"; "__lookupSetter__"; "__proto__"]).

(** [( obj[ key ] || [] )], about to be used as an array (by [findIndex] or
    by a spread): an own property holds an array, and an array is truthy;
    an inherited property is truthy as well, has no [findIndex] and is not
    iterable, so using it throws a TypeError; otherwise the read gives
    [undefined] and the empty array takes its place. *)
Definition arrayOrEmpty {A} (obj : gmap string (list A)) (key : string) : M (list A) :=
  match obj !! key with
  | Some arr => mret arr
  | None => if inherited key then throw TypeError else mret []
  end.

(** [! obj[ key ]]: an own array and an inherited property are truthy. *)
Definition falsy_at {A} (obj : gmap string (list A)) (key : string) : bool :=
  negb (bool_decide (is_Some (obj !! key)) || inherited key).

(** [instanceData[ field ]]: [undefined] when the object has no such
    property.  The fields read are [id] and [<model>Id], none of them a
    property of [Object.prototype]. *)
Definition prop (instanceData : gmap string jsval) (field : string) : jsval :=
  default JUndefined (instanceData !! field).

(** ** The constructor: the map of depending models *)

(** The body shared by the two branches of the association loop:
    [dependingModelList] is [this.dependingModelMap[ listOwner ]]; calling
    [includes] on [undefined] throws a TypeError. *)
Definition registerDepending (listOwner dependentModel : string) : M unit :=
  st ← get;
  match dependingModelMap st !! listOwner with
  | None => throw TypeError
  | Some dependingModelList =>
      if negb (includes dependingModelList dependentModel)
      then set_dependingModelMap
             (<[listOwner := dependingModelList ++ [dependentModel]]> (dependingModelMap st))
      else mret tt
  end.

Definition addAssociation (a : association) : M unit :=
  match kind a with
  | BelongsTo | BelongsToMany => registerDepending (source a) (target a)
  | HasOne | HasMany => registerDepending (target a) (source a)
  end.

(** The body of the constructor's loop over [models].  The hooks it
    installs with [model.addHook] are the functions [afterFind],
    [afterCreate], ... below. *)
Definition perModel (model : model) : M unit :=
  let modelName := name model in
  forOf (associations model) addAssociation;;
  st ← get;
  set_subscriptionsByResource
    (<[modelName := {[ "generic" := [] ]}]> (subscriptionsByResource st)).

(** The constructor body. *)
Definition constructor (models : list model) : M unit :=
  set_modelNames (map name models);;
  st ← get;
  set_dependingModelMap
    (foldl (λ dmm model, <[model := []]> dmm) ∅ (modelNames st));;
  forOf models perModel.

(** [new SequelizeChangeTracker({ models })]: the tracker, or the error the
    constructor threw. *)
Definition new_SequelizeChangeTracker (models : list model) : outcome tracker :=
  let r := constructor models fresh in
  match outcome_of r with
  | Returns _ => Returns (final r)
  | Throws e => Throws e
  end.

(** ** The subscription registers *)

(** [findSubscriptionIndices({ subscriptionId, modelName, instanceId, generic })]. *)
Definition findSubscriptionIndices (a : subscriptionObject) : M (Z * Z) :=
  st ← get;
  subObjs ← arrayOrEmpty (subscriptionsById st) (to_key (subscriptionId a));
  let sbiIndex :=
    findIndex
      (λ subObj,
         bool_decide (so_modelName subObj = modelName a) &&
         (if generic a then so_generic subObj
          else bool_decide (so_instanceId subObj = instanceId a)))
      subObjs in
  let modelProp := if generic a then "generic" else to_key (instanceId a) in
  res ← resource (modelName a);
  ids ← arrayOrEmpty res modelProp;
  let sbrIndex := findIndex (λ id, bool_decide (id = subscriptionId a)) ids in
  mret (sbiIndex, sbrIndex).

(** [addSubscription({ modelName, subscriptionId, instanceId })]: the
    destructuring reads these three properties of its argument only.
    [Array.isArray] holds of an own property only, and the assignments are
    reached with keys under which [findSubscriptionIndices] found an own
    array or nothing at all, so each creates an own property. *)
Definition addSubscription (a : subscriptionObject) : M unit :=
  let modelName := modelName a in
  let subscriptionId := subscriptionId a in
  let instanceId := instanceId a in
  st ← get;
  if negb (includes (modelNames st) modelName)
  then throw (Error ("Unknown model: " +:+ modelName))
  else
    let generic := bool_decide (instanceId = JUndefined) in
    '(sbiIndex, sbrIndex) ←
      findSubscriptionIndices (SubscriptionObject subscriptionId modelName instanceId generic);
    if negb (bool_decide (sbiIndex = -1))
    then throw (Error "Already subscribed")
    else
      st ← get;
      (if falsy_at (subscriptionsById st) (to_key subscriptionId)
       then set_subscriptionsById (<[to_key subscriptionId := []]> (subscriptionsById st))
       else mret tt);;
      (if generic
       then
         byId_push subscriptionId (SubObj modelName true JUndefined);;
         resource_push modelName "generic" subscriptionId
       else
         byId_push subscriptionId (SubObj modelName false instanceId);;
         res ← resource modelName;
         st ← get;
         (if negb (bool_decide (is_Some (res !! to_key instanceId)))
          then set_subscriptionsByResource
                 (<[modelName := <[to_key instanceId := []]> res]> (subscriptionsByResource st))
          else mret tt);;
         resource_push modelName (to_key instanceId) subscriptionId);;
      emit (SubscriptionsChanged subscriptionId modelName instanceId generic).

(** The body of [removeSubscription], given what the member expression in
    its first statement evaluates to: calling [undefined] throws a
    TypeError. *)
Definition removeSubscription_with
    (finder : option (subscriptionObject → M (Z * Z)))
    (a : subscriptionObject) : M unit :=
  match finder with
  | None => throw TypeError
  | Some find =>
      '(sbiIndex, sbrIndex) ← find a;
      if bool_decide (sbiIndex = -1) || bool_decide (sbrIndex = -1)
      then throw (Error ("Can't find subscription " +:+ to_key (subscriptionId a) +:+
                         " on " +:+ modelName a +:+ " " +:+ to_key (instanceId a)))
      else
        st ← get;
        match subscriptionsById st !! to_key (subscriptionId a) with
        | None => throw TypeError
        | Some arr =>
            set_subscriptionsById
              (<[to_key (subscriptionId a) := splice1 sbiIndex arr]> (subscriptionsById st))
        end;;
        let modelProp := if generic a then "generic" else to_key (instanceId a) in
        res ← resource (modelName a);
        match res !! modelProp with
        | None => throw TypeError
        | Some arr =>
            st ← get;
            set_subscriptionsByResource
              (<[modelName a := <[modelProp := splice1 sbrIndex arr]> res]>
                 (subscriptionsByResource st))
        end
  end.

(** [this.findSBIIndex]: the class defines [addSubscriptionIfRequested],
    [notifySubscribers], [removeSubscriptionAllModels],
    [findSubscriptionIndices], [removeSubscription], [addSubscription] and
    [destroy], and no member of this name, so the expression is
    [undefined]. *)
Definition this_findSBIIndex : option (subscriptionObject → M (Z * Z)) := None.

(** [removeSubscription({ subscriptionId, modelName, instanceId, generic })]. *)
Definition removeSubscription : subscriptionObject → M unit :=
  removeSubscription_with this_findSBIIndex.

(** The body of [removeSubscriptionAllModels] around a given
    [removeSubscription]: the loop runs over the array stored in
    [this.subscriptionsById[ subscriptionId ]] itself ([undefined] is not
    iterable), and [{ subscriptionId, ...subObj }] is the argument. *)
Definition removeSubscriptionAllModels_with
    (remove : subscriptionObject → M unit) (subscriptionId : jsval) : M bool :=
  st ← get;
  match subscriptionsById st !! to_key subscriptionId with
  | None => throw TypeError
  | Some arr =>
      forOfLive (S (length arr))
        (λ st, default [] (subscriptionsById st !! to_key subscriptionId)) 0
        (λ subObj,
           remove (SubscriptionObject subscriptionId (so_modelName subObj)
                     (so_instanceId subObj) (so_generic subObj)))
  end.

(** [removeSubscriptionAllModels( subscriptionId )]. *)
Definition removeSubscriptionAllModels : jsval → M bool :=
  removeSubscriptionAllModels_with removeSubscription.

(** ** Notification *)

(** The loop over [this.dependingModelMap[ modelName ]] in
    [notifySubscribers]; [subscriptionIds] is the local array the loop
    pushes to.  [Array.isArray] holds of an own property only. *)
Fixpoint cascade (dependingModels : list string) (instanceData : gmap string jsval)
    (subscriptionIds : list jsval) : M (list jsval) :=
  match dependingModels with
  | [] => mret subscriptionIds
  | dependingModel :: rest =>
      let foreignKey := dependingModel +:+ "Id" in
      let dependingInstanceId := prop instanceData foreignKey in
      res ← resource dependingModel;
      let dependingInstanceSubscriptions := res !! to_key dependingInstanceId in
      cascade rest instanceData
        (match dependingInstanceSubscriptions with
         | Some arr => if bool_decide (0 < length arr)%nat
                       then subscriptionIds ++ arr else subscriptionIds
         | None => subscriptionIds
         end)
  end.

(** The end of [notifySubscribers], the same in both revisions. *)
Definition cascadeAndEmit (modelName : string) (operation : operation)
    (changedFields : list string) (instanceData : gmap string jsval)
    (subscriptionIds : list jsval) : M unit :=
  st ← get;
  match dependingModelMap st !! modelName with
  | None => throw TypeError
  | Some dependingModels =>
      subscriptionIds ← cascade dependingModels instanceData subscriptionIds;
      if bool_decide (0 < length subscriptionIds)%nat
      then emit (DataChanged operation modelName instanceData changedFields subscriptionIds)
      else mret tt
  end.

(** [notifySubscribers({ modelName, operation, changedFields, instanceData })],
    the revision the module exports (second half of [src/index.js]). *)
Definition notifySubscribers (modelName : string) (operation : operation)
    (changedFields : list string) (instanceData : gmap string jsval) : M unit :=
  genericSubIds ←
    (if includes genericOperations operation
     then res ← resource modelName;
          match res !! "generic" with
          | Some arr => mret arr
          | None => throw TypeError
          end
     else mret []);
  specificSubIds ←
    (if includes specificOperations operation
     then res ← resource modelName;
          arrayOrEmpty res (to_key (prop instanceData "id"))
     else mret []);
  let subscriptionIds := new_Set (genericSubIds ++ specificSubIds) in
  cascadeAndEmit modelName operation changedFields instanceData subscriptionIds.

(** The earlier revision of [notifySubscribers] (first half of
    [src/index.js]): spreading [undefined] throws a TypeError, and so does
    spreading an inherited property. *)
Definition notifySubscribers_earlier (modelName : string) (operation : operation)
    (changedFields : list string) (instanceData : gmap string jsval) : M unit :=
  subscriptionIds ←
    (res ← resource modelName;
     if includes genericOperations operation
     then match res !! "generic" with
          | Some arr => mret arr
          | None => throw TypeError
          end
     else match res !! to_key (prop instanceData "id") with
          | Some arr => mret arr
          | None => throw TypeError
          end);
  cascadeAndEmit modelName operation changedFields instanceData subscriptionIds.

(** ** The tracked read path and the model hooks *)

(** A Sequelize instance: [inst.constructor.name], [inst.id] and
    [inst.dataValues]. *)
Record instance : Type := Instance_ {
  inst_constructor_name : string;
  inst_id : jsval;
  inst_dataValues : gmap string jsval
}.

(** What a hook receives as [instance]: nothing ([null]), one instance, or
    an array of instances. *)
Inductive instances : Type :=
  | NoInstance
  | OneInstance (inst : instance)
  | ManyInstances (l : list instance).

(** The [options] of a Sequelize call: [options.trackChanges] is absent
    ([None]) or an object whose [subscriptionId] property is the given
    value, and [options.fields] lists the changed fields. *)
Record options : Type := Options {
  trackChanges : option jsval;
  fields : list string
}.

(** [#addSubscriptionIfRequested( modelName, instance, options )]. *)
Definition addSubscriptionIfRequested (modelName : string) (instance : instances)
    (options : options) : M unit :=
  match instance with
  | NoInstance => mret tt
  | _ =>
      match trackChanges options with
      | None => mret tt
      | Some subscriptionId =>
          if negb (truthy subscriptionId)
          then throw (Error "Missing subscription id")
          else
            let iterableInstances :=
              match instance with
              | ManyInstances l => l
              | OneInstance inst => [inst]
              | NoInstance => []
              end in
            forOf iterableInstances (λ inst,
              addSubscription
                (SubscriptionObject subscriptionId (inst_constructor_name inst)
                   (inst_id inst) false))
      end
  end.

Definition afterFind (modelName : string) (instance : instances) (options : options) : M unit :=
  addSubscriptionIfRequested modelName instance options.

Definition afterCreate (modelName : string) (instance : instance) (options : options) : M unit :=
  addSubscriptionIfRequested modelName (OneInstance instance) options;;
  notifySubscribers modelName op_create (fields options) (inst_dataValues instance).

Definition afterBulkCreate (modelName : string) (instances : list instance)
    (options : options) : M unit :=
  forOf instances (λ instance,
    addSubscriptionIfRequested modelName (OneInstance instance) options;;
    notifySubscribers modelName op_create (fields options) (inst_dataValues instance)).

Definition afterUpdate (modelName : string) (instance : instance) (options : options) : M unit :=
  addSubscriptionIfRequested modelName (OneInstance instance) options;;
  notifySubscribers modelName op_update (fields options) (inst_dataValues instance).

Definition afterBulkUpdate (modelName : string) (options : options) : M unit := mret tt.

Definition afterDestroy (modelName : string) (instance : instance) (options : options) : M unit :=
  notifySubscribers modelName op_delete (fields options) (inst_dataValues instance).

Definition afterBulkDestroy (modelName : string) (options : options) : M unit := mret tt.

(** [destroy()]. *)
Definition destroy : M unit := mret tt.

(** ** Histories of calls *)

(** What a client or Sequelize can call on a constructed tracker. *)
Inductive call : Type :=
  | call_addSubscription (a : subscriptionObject)
  | call_removeSubscription (a : subscriptionObject)
  | call_removeSubscriptionAllModels (subscriptionId : jsval)
  | call_findSubscriptionIndices (a : subscriptionObject)
  | call_notifySubscribers (modelName : string) (operation : operation)
      (changedFields : list string) (instanceData : gmap string jsval)
  | call_destroy
  | hook_afterFind (modelName : string) (instance : instances) (options : options)
  | hook_afterCreate (modelName : string) (instance : instance) (options : options)
  | hook_afterBulkCreate (modelName : string) (l : list instance) (options : options)
  | hook_afterUpdate (modelName : string) (instance : instance) (options : options)
  | hook_afterBulkUpdate (modelName : string) (options : options)
  | hook_afterDestroy (modelName : string) (instance : instance) (options : options)
  | hook_afterBulkDestroy (modelName : string) (options : options).

(** The tracker after a call, whether the call returned or threw. *)
Definition after (c : call) (st : tracker) : tracker :=
  match c with
  | call_addSubscription a => final (addSubscription a st)
  | call_removeSubscription a => final (removeSubscription a st)
  | call_removeSubscriptionAllModels s => final (removeSubscriptionAllModels s st)
  | call_findSubscriptionIndices a => final (findSubscriptionIndices a st)
  | call_notifySubscribers m o f d => final (notifySubscribers m o f d st)
  | call_destroy => final (destroy st)
  | hook_afterFind m i o => final (afterFind m i o st)
  | hook_afterCreate m i o => final (afterCreate m i o st)
  | hook_afterBulkCreate m l o => final (afterBulkCreate m l o st)
  | hook_afterUpdate m i o => final (afterUpdate m i o st)
  | hook_afterBulkUpdate m o => final (afterBulkUpdate m o st)
  | hook_afterDestroy m i o => final (afterDestroy m i o st)
  | hook_afterBulkDestroy m o => final (afterBulkDestroy m o st)
  end.

(** The trackers that exist: built by the constructor, then used. *)
Inductive reachable : tracker → Prop :=
  | reachable_new models st :
      new_SequelizeChangeTracker models = Returns st → reachable st
  | reachable_call c st :
      reachable st → reachable (after c st).

(** ** Vocabulary of the properties *)

(** The model that holds the list an association adds to, and the name it
    adds, as [addAssociation] picks them. *)
Definition listOwner (a : association) : string :=
  match kind a with
  | BelongsTo | BelongsToMany => source a
  | HasOne | HasMany => target a
  end.

Definition dependentModel (a : association) : string :=
  match kind a with
  | BelongsTo | BelongsToMany => target a
  | HasOne | HasMany => source a
  end.

(** The object [addSubscription] stores in [subscriptionsById] for its
    argument. *)
Definition entry (a : subscriptionObject) : subObj :=
  if bool_decide (instanceId a = JUndefined)
  then SubObj (modelName a) true JUndefined
  else SubObj (modelName a) false (instanceId a).

(** A property of the tracker that a method keeps, whether it returns or
    throws. *)
Definition preserves {A} (P : tracker → Prop) (m : M A) : Prop :=
  ∀ st, P st → P (final (m st)).

(** A method that leaves the tracker as it found it. *)
Definition readonly {A} (m : M A) : Prop := ∀ st, final (m st) = st.

(** [a] is listed: the list of its owner holds its dependent model. *)
Definition listed (st : tracker) (a : association) : Prop :=
  ∃ l, dependingModelMap st !! listOwner a = Some l ∧ dependentModel a ∈ l.

Definition no_repeats (st : tracker) : Prop :=
  ∀ k l, dependingModelMap st !! k = Some l → NoDup l.

(** What the association loops keep of a tracker whose map has the keys [D]. *)
Record graph_step (D : gset string) (st st' : tracker) : Prop := GraphStep {
  gs_modelNames : modelNames st' = modelNames st;
  gs_byId : subscriptionsById st' = subscriptionsById st;
  gs_dom : dom (dependingModelMap st') = D;
  gs_no_repeats : no_repeats st';
  gs_listed : ∀ a, listed st a → listed st' a
}.

(** A model is registered: [subscriptionsByResource] has its object, with
    the ['generic'] array. *)
Definition registered (st : tracker) (m : string) : Prop :=
  ∃ res, subscriptionsByResource st !! m = Some res ∧ is_Some (res !! "generic").

(** The test [findSubscriptionIndices] runs over [subscriptionsById]. *)
Definition sameSubscription (a : subscriptionObject) (subObj : subObj) : bool :=
  bool_decide (so_modelName subObj = modelName a) &&
  (if generic a then so_generic subObj
   else bool_decide (so_instanceId subObj = instanceId a)).

(** The property of the resource object a subscription is filed under. *)
Definition modelProp (instanceId : jsval) : string :=
  if bool_decide (instanceId = JUndefined) then "generic" else to_key instanceId.

Definition as_added (a : subscriptionObject) : subscriptionObject :=
  SubscriptionObject (subscriptionId a) (modelName a) (instanceId a)
    (bool_decide (instanceId a = JUndefined)).

Record wf (st : tracker) : Prop := Wf {
  wf_registered : ∀ m, m ∈ modelNames st → registered st m;
  wf_graph : ∀ m, m ∈ modelNames st → is_Some (dependingModelMap st !! m);
  wf_known : ∀ k l o,
    subscriptionsById st !! k = Some l → o ∈ l → so_modelName o ∈ modelNames st;
  wf_nonempty : ∀ k, subscriptionsById st !! k ≠ Some []
}.

(** [this.subscriptionsByResource[ m ][ p ]], an empty array when absent. *)
Definition lookupArr (st : tracker) (m p : string) : list jsval :=
  default [] (subscriptionsByResource st !! m ≫= λ res, res !! p).

(** The subscribers of the mutated record itself. *)
Definition directSubscribers (st : tracker) (m : string) (op : operation)
    (data : gmap string jsval) : list jsval :=
  new_Set
    ((if includes genericOperations op then lookupArr st m "generic" else []) ++
     (if includes specificOperations op then lookupArr st m (to_key (prop data "id")) else [])).

(** What the cascade step adds for the depending model [d]. *)
Definition cascadeContribution (st : tracker) (data : gmap string jsval) (d : string) :
    list jsval :=
  lookupArr st d (to_key (prop data (d +:+ "Id"))).

Definition cascadeSubscribers (st : tracker) (deps : list string)
    (data : gmap string jsval) : list jsval :=
  flat_map (cascadeContribution st data) deps.

(** How often a name occurs in a list of the map. *)
Definition occurrences (x : string) (l : list string) : nat :=
  length (filter (λ y, y = x) l).

(** The first tracker the constructor loop runs on. *)
Definition initial (models : list model) : tracker :=
  Tracker (map name models)
    (foldl (λ dmm model, <[model := []]> dmm) ∅ (map name models)) ∅ ∅.

(** No array of [subscriptionsByResource] holds a subscriber. *)
Definition quiet (st : tracker) : Prop := ∀ m p, lookupArr st m p = [].

(** The property of the resource object an entry of [subscriptionsById]
    stands for. *)
Definition resourceKey (o : subObj) : string :=
  if so_generic o then "generic" else to_key (so_instanceId o).

(** Identifiers as the type annotations of the source have them: a
    subscription id is a string, an instance id is absent (a generic
    subscription) or a string - other than the literal ['generic']. *)
Definition plain_id (v : jsval) : Prop := ∃ s, v = JStr s.

Definition plain_instance (v : jsval) : Prop :=
  v = JUndefined ∨ ∃ i, v = JStr i ∧ i ≠ "generic".

Definition plain_entry (o : subObj) : Prop :=
  (so_generic o = true ∧ so_instanceId o = JUndefined) ∨
  (so_generic o = false ∧ ∃ i, so_instanceId o = JStr i ∧ i ≠ "generic").

(** The two registers agree: an entry is filed under a subscription id
    exactly when the id is in the array of the entry's resource. *)
Definition agree (st : tracker) : Prop :=
  ∀ s o, plain_entry o →
    o ∈ default [] (subscriptionsById st !! s) ↔
    JStr s ∈ lookupArr st (so_modelName o) (resourceKey o).

Definition plain_options (o : options) : Prop :=
  match trackChanges o with
  | None => True
  | Some s => plain_id s
  end.

Definition plain_instances (i : instances) : Prop :=
  match i with
  | NoInstance => True
  | OneInstance inst => plain_instance (inst_id inst)
  | ManyInstances l => ∀ inst, inst ∈ l → plain_instance (inst_id inst)
  end.

Definition plain_call (c : call) : Prop :=
  match c with
  | call_addSubscription a => plain_id (subscriptionId a) ∧ plain_instance (instanceId a)
  | hook_afterFind _ i o => plain_options o ∧ plain_instances i
  | hook_afterCreate _ inst o | hook_afterUpdate _ inst o =>
      plain_options o ∧ plain_instance (inst_id inst)
  | hook_afterBulkCreate _ l o =>
      plain_options o ∧ ∀ inst, inst ∈ l → plain_instance (inst_id inst)
  | _ => True
  end.

(** The trackers built by the constructor and used with such identifiers
    only. *)
Inductive plainly_reachable : tracker → Prop :=
  | plainly_new models st :
      new_SequelizeChangeTracker models = Returns st → plainly_reachable st
  | plainly_call c st :
      plainly_reachable st → plain_call c → plainly_reachable (after c st).

(** The two forms [addSubscription] stores: [{ modelName, generic: true }]
    has no instance id, [{ modelName, instanceId }] has one. *)
Definition shaped (o : subObj) : Prop :=
  if so_generic o then so_instanceId o = JUndefined else so_instanceId o ≠ JUndefined.

Definition shaped_register (st : tracker) : Prop :=
  ∀ k l o, subscriptionsById st !! k = Some l → o ∈ l → shaped o.


(** Nothing of the registers of [st] is missing in [st']. *)
Definition keeps (st st' : tracker) : Prop :=
  (∀ k o, o ∈ default [] (subscriptionsById st !! k) →
          o ∈ default [] (subscriptionsById st' !! k)) ∧
  (∀ m p x, x ∈ lookupArr st m p → x ∈ lookupArr st' m p).

(** The ids of a ['data-changed'] event; no ids for another event. *)
Definition notified (e : event) : list jsval :=
  match e with
  | DataChanged _ _ _ _ ids => ids
  | SubscriptionsChanged _ _ _ _ => []
  end.



(** The names of a list in the order of their first occurrence. *)
Definition firsts (l : list string) : list string :=
  foldl (λ acc x, if includes acc x then acc else acc ++ [x]) [] l.

(** The models the associations owned by [k] refer to, in the order of the
    associations. *)
Definition referredBy (k : string) (assocs : list association) : list string :=
  map dependentModel (filter (λ a, listOwner a = k) assocs).

(** The map holds, for every model name, the first occurrences of what the
    associations seen so far refer to. *)
Definition collected (names : list string) (seen : list association) (st : tracker) : Prop :=
  ∀ k, dependingModelMap st !! k =
       if bool_decide (k ∈ names) then Some (firsts (referredBy k seen)) else None.

(** The read [( obj[ key ] || [] )] gives an array: the property is the
    object's own, or no object has a property of this name. *)
Definition usable {A} (obj : gmap string (list A)) (key : string) : bool :=
  bool_decide (is_Some (obj !! key)) || negb (inherited key).

(** Both reads of [findSubscriptionIndices], as [addSubscription] calls it,
    give arrays. *)
Definition indexable (st : tracker) (a : subscriptionObject) : bool :=
  usable (subscriptionsById st) (to_key (subscriptionId a)) &&
  usable (default ∅ (subscriptionsByResource st !! modelName a)) (modelProp (instanceId a)).

(** The subscription is not in [subscriptionsById] yet. *)
Definition unseen (st : tracker) (a : subscriptionObject) : bool :=
  bool_decide (findIndex (sameSubscription (as_added a))
                 (default [] (subscriptionsById st !! to_key (subscriptionId a))) = -1).

(** [addSubscription] goes through for a known model. *)
Definition accepts (st : tracker) (a : subscriptionObject) : bool :=
  indexable st a && unseen st a.

(** What [addSubscription] throws for a known model otherwise. *)
Definition refusal (st : tracker) (a : subscriptionObject) : error :=
  if indexable st a then Error "Already subscribed" else TypeError.

(** The later [notifySubscribers] gets an array for the mutated record:
    it reads none for ['create'], and for ['update'] and ['delete'] the id
    names an own array or no property at all. *)
Definition spreads (st : tracker) (m : string) (op : operation)
    (data : gmap string jsval) : bool :=
  negb (includes specificOperations op) ||
  usable (default ∅ (subscriptionsByResource st !! m)) (to_key (prop data "id")).

(** The registers have no own property under a name of [Object.prototype]. *)
Definition own_names (st : tracker) : Prop :=
  (∀ k, is_Some (subscriptionsById st !! k) → inherited k = false) ∧
  (∀ m res p, subscriptionsByResource st !! m = Some res →
              is_Some (res !! p) → inherited p = false).

(** Every entry of [subscriptionsById] has its array in
    [subscriptionsByResource]. *)
Definition backed (st : tracker) : Prop :=
  ∀ k l o, subscriptionsById st !! k = Some l → o ∈ l →
    ∃ res, subscriptionsByResource st !! so_modelName o = Some res ∧
           is_Some (res !! resourceKey o).

(** ** Examples used below *)

(** [Message.belongsTo( User )], with [User] a model of its own. *)
Definition Message : model :=
  Model "Message" [Association BelongsTo "Message" "User"].
Definition User : model := Model "User" [].

Definition dataValues (l : list (string * jsval)) : gmap string jsval :=
  list_to_map l.

(** The tracker of the running example, and the constructor's answer. *)
Definition messages_and_users : tracker :=
  Tracker ["Message"; "User"]
    (<["Message" := ["User"]]> (<["User" := []]> ∅))
    (<["Message" := {[ "generic" := [] ]}]> (<["User" := {[ "generic" := [] ]}]> ∅))
    ∅.

(** [User.hasMany( Message )] where [Message] is not passed to the
    constructor. *)
Definition UserAlone : model :=
  Model "User" [Association HasMany "User" "Message"].

(** Subscription 1: generic on [Message], specific on the user [u1]. *)
Definition generic_on_Message : subscriptionObject :=
  SubscriptionObject (JNum 1) "Message" JUndefined true.
Definition specific_on_u1 : subscriptionObject :=
  SubscriptionObject (JNum 1) "User" (JStr "u1") false.
Definition generic_on_User : subscriptionObject :=
  SubscriptionObject (JNum 1) "User" JUndefined true.

Definition with_both : tracker :=
  after (call_addSubscription specific_on_u1)
    (after (call_addSubscription generic_on_Message) messages_and_users).

Definition with_two_generic : tracker :=
  after (call_addSubscription generic_on_Message)
    (after (call_addSubscription generic_on_User) messages_and_users).

(** A message [m1] of the user [u1]. *)
Definition message_m1 : gmap string jsval :=
  dataValues [("id", JStr "m1"); ("UserId", JStr "u1")].

(** A subscription of [s1] to the User instance whose id is the string
    ['generic']. *)
Definition on_instance_generic : subscriptionObject :=
  SubscriptionObject (JStr "s1") "User" (JStr "generic") false.

Definition with_instance_generic : tracker :=
  after (call_addSubscription on_instance_generic) messages_and_users.

(** Subscriptions of 1 to the User instances whose id is [null] and whose
    id is the string ['undefined']. *)
Definition on_instance_null : subscriptionObject :=
  SubscriptionObject (JNum 1) "User" JNull false.
Definition on_instance_undefined : subscriptionObject :=
  SubscriptionObject (JNum 1) "User" (JStr "undefined") false.

Definition with_instance_null : tracker :=
  after (call_addSubscription on_instance_null) messages_and_users.
Definition with_instance_undefined : tracker :=
  after (call_addSubscription on_instance_undefined) messages_and_users.

(** A message whose [UserId] is [null], and one without the field. *)
Definition message_null_user : gmap string jsval :=
  dataValues [("id", JStr "m1"); ("UserId", JNull)].
Definition message_no_user : gmap string jsval :=
  dataValues [("id", JStr "m1")].

Definition with_u1 : tracker :=
  after (call_addSubscription specific_on_u1) messages_and_users.

Definition user_u1 : gmap string jsval := dataValues [("id", JStr "u1")].
Definition user_u2 : gmap string jsval := dataValues [("id", JStr "u2")].

(** Identifiers that are names of properties of [Object.prototype]: a user
    whose id is ['constructor'], a subscription on this user, and a
    generic subscription under the id ['toString']. *)
Definition user_constructor : gmap string jsval := dataValues [("id", JStr "constructor")].
Definition on_instance_constructor : subscriptionObject :=
  SubscriptionObject (JNum 1) "User" (JStr "constructor") false.
Definition generic_as_toString : subscriptionObject :=
  SubscriptionObject (JStr "toString") "User" JUndefined true.

(** * Properties *)

(** ** Running a method *)

Ltac munfold :=
  unfold mbind, mret, M_bind, M_ret, get, put, throw, emit in *.

Ltac rsimpl :=
  cbn [outcome_of final emitted subscriptionsById subscriptionsByResource
       modelNames dependingModelMap negb app from_option id].

Lemma run_bind {A B} (m : M A) (k : A → M B) st :
  (m ≫= k) st =
  match outcome_of (m st) with
  | Throws e => Result (Throws e) (final (m st)) (emitted (m st))
  | Returns a =>
      Result (outcome_of (k a (final (m st)))) (final (k a (final (m st))))
        (emitted (m st) ++ emitted (k a (final (m st))))
  end.
Proof. reflexivity. Qed.

Lemma preserves_ret {A} P (a : A) : preserves P (mret a).
Proof. by intros st H. Qed.

Lemma preserves_throw {A} P e : preserves P (throw e : M A).
Proof. by intros st H. Qed.

Lemma preserves_get P : preserves P get.
Proof. by intros st H. Qed.

Lemma preserves_emit P e : preserves P (emit e).
Proof. by intros st H. Qed.

Lemma preserves_bind {A B} P (m : M A) (k : A → M B) :
  preserves P m → (∀ a, preserves P (k a)) → preserves P (m ≫= k).
Proof.
  intros Hm Hk st H. rewrite run_bind.
  specialize (Hm st H). destruct (outcome_of (m st)); simpl; [by apply Hk | done].
Qed.

Lemma preserves_forOf {A} P (l : list A) (body : A → M unit) :
  (∀ x, preserves P (body x)) → preserves P (forOf l body).
Proof.
  intros Hb. induction l as [|x l IH]; simpl.
  - apply preserves_ret.
  - apply preserves_bind; [apply Hb | intros _; apply IH].
Qed.

Lemma readonly_preserves {A} P (m : M A) : readonly m → preserves P m.
Proof. intros Hm st H. by rewrite Hm. Qed.

Lemma readonly_ret {A} (a : A) : readonly (mret a).
Proof. by intros st. Qed.

Lemma readonly_throw {A} e : readonly (throw e : M A).
Proof. by intros st. Qed.

Lemma readonly_emit e : readonly (emit e).
Proof. by intros st. Qed.

Lemma readonly_bind {A B} (m : M A) (k : A → M B) :
  readonly m → (∀ a, readonly (k a)) → readonly (m ≫= k).
Proof.
  intros Hm Hk st. rewrite run_bind.
  destruct (outcome_of (m st)); simpl; [by rewrite Hk, Hm | apply Hm].
Qed.

Lemma readonly_resource m : readonly (resource m).
Proof. intros st. unfold resource. munfold. simpl. by destruct (_ !! m). Qed.

(** ** The map of depending models *)

Lemma addAssociation_registerDepending a :
  addAssociation a = registerDepending (listOwner a) (dependentModel a).
Proof. unfold addAssociation, listOwner, dependentModel. by destruct (kind a). Qed.

Lemma registerDepending_run owner dep st :
  registerDepending owner dep st =
  match dependingModelMap st !! owner with
  | None => Result (Throws TypeError) st []
  | Some l =>
      Result (Returns tt)
        (if includes l dep then st
         else Tracker (modelNames st) (<[owner := l ++ [dep]]> (dependingModelMap st))
                (subscriptionsByResource st) (subscriptionsById st)) []
  end.
Proof.
  unfold registerDepending, set_dependingModelMap. munfold. simpl.
  destruct (dependingModelMap st !! owner) as [l|]; [|done].
  by destruct (includes l dep).
Qed.

Lemma graph_step_refl D st :
  dom (dependingModelMap st) = D → no_repeats st → graph_step D st st.
Proof. by split. Qed.

Lemma graph_step_trans D st1 st2 st3 :
  graph_step D st1 st2 → graph_step D st2 st3 → graph_step D st1 st3.
Proof.
  intros [] []. split; try congruence; auto.
Qed.

Lemma registerDepending_step D owner dep st :
  dom (dependingModelMap st) = D → no_repeats st →
  let r := registerDepending owner dep st in
  emitted r = [] ∧
  subscriptionsByResource (final r) = subscriptionsByResource st ∧
  graph_step D st (final r) ∧
  match outcome_of r with
  | Returns _ =>
      owner ∈ D ∧ ∃ l, dependingModelMap (final r) !! owner = Some l ∧ dep ∈ l
  | Throws e => e = TypeError ∧ owner ∉ D
  end.
Proof.
  intros HD Hnd. rewrite registerDepending_run.
  destruct (dependingModelMap st !! owner) as [l|] eqn:Hl; simpl.
  - assert (owner ∈ D) as Hin by (rewrite <- HD; apply elem_of_dom; eauto).
    unfold includes. destruct (bool_decide_reflect (dep ∈ l)) as [Hdep|Hdep]; simpl.
    + repeat split; eauto using graph_step_refl.
    + repeat split; simpl; eauto.
      * by rewrite dom_insert_lookup_L by eauto.
      * intros k l'. simpl. destruct (decide (owner = k)) as [<-|Hne].
        -- rewrite lookup_insert_eq. intros [= <-].
           apply NoDup_app. split_and!; [by eapply Hnd | | apply NoDup_singleton].
           intros x Hx ->%list_elem_of_singleton. done.
        -- rewrite lookup_insert_ne by done. apply Hnd.
      * intros a (l' & Hl' & Hmem). unfold listed. simpl.
        destruct (decide (owner = listOwner a)) as [Heq|Hne].
        -- rewrite <- Heq in *. rewrite lookup_insert_eq. eexists. split; [done|].
           rewrite Hl in Hl'. injection Hl' as <-. set_solver.
        -- rewrite lookup_insert_ne by done. eauto.
      * rewrite lookup_insert_eq. eexists. split; [done|]. set_solver.
  - repeat split; eauto using graph_step_refl.
    rewrite <- HD. by apply not_elem_of_dom.
Qed.

Lemma association_loop D assocs st :
  dom (dependingModelMap st) = D → no_repeats st →
  let r := forOf assocs addAssociation st in
  emitted r = [] ∧
  subscriptionsByResource (final r) = subscriptionsByResource st ∧
  graph_step D st (final r) ∧
  match outcome_of r with
  | Returns _ => ∀ a, a ∈ assocs → listOwner a ∈ D ∧ listed (final r) a
  | Throws e => e = TypeError ∧ ∃ a, a ∈ assocs ∧ listOwner a ∉ D
  end.
Proof.
  revert st. induction assocs as [|a assocs IH]; intros st HD Hnd; simpl.
  - split_and!; eauto using graph_step_refl. intros a Ha. by apply elem_of_nil in Ha.
  - rewrite run_bind, addAssociation_registerDepending.
    pose proof (registerDepending_step D (listOwner a) (dependentModel a) st HD Hnd)
      as (He & Hsbr & Hstep & Hout).
    destruct (outcome_of (registerDepending (listOwner a) (dependentModel a) st)) eqn:Ho;
      cbn [emitted final outcome_of].
    + destruct Hout as (Hin & Hlisted).
      destruct (IH (final (registerDepending (listOwner a) (dependentModel a) st)))
        as (He' & Hsbr' & Hstep' & Hout'); [apply Hstep..|].
      split_and!.
      * by rewrite He, He'.
      * congruence.
      * by eapply graph_step_trans.
      * destruct (outcome_of (forOf assocs addAssociation _)).
        -- intros a' [->|Ha']%elem_of_cons; [|by apply Hout'].
           split; [done|]. by apply Hstep'.
        -- destruct Hout' as (-> & a' & Ha' & Hno). split; [done|].
           exists a'. split; [by apply elem_of_cons; right|done].
    + destruct Hout as (-> & Hno). split_and!; try done.
      exists a. split; [apply elem_of_cons; by left|done].
Qed.

Lemma perModel_step D model st :
  dom (dependingModelMap st) = D → no_repeats st →
  let r := perModel model st in
  emitted r = [] ∧
  graph_step D st (final r) ∧
  (∀ m, registered st m → registered (final r) m) ∧
  match outcome_of r with
  | Returns _ =>
      registered (final r) (name model) ∧
      ∀ a, a ∈ associations model → listOwner a ∈ D ∧ listed (final r) a
  | Throws e => e = TypeError ∧ ∃ a, a ∈ associations model ∧ listOwner a ∉ D
  end.
Proof.
  intros HD Hnd. unfold perModel. rewrite run_bind.
  pose proof (association_loop D (associations model) st HD Hnd)
    as (He & Hsbr & Hstep & Hout).
  destruct (outcome_of (forOf (associations model) addAssociation st)) eqn:Ho;
    cbn [emitted final outcome_of].
  - unfold set_subscriptionsByResource. munfold. cbn [emitted final outcome_of].
    rewrite He. split_and!; [done| | | |].
    + destruct Hstep. by split.
    + intros m (res & Hres & Hgen). unfold registered. simpl.
      destruct (decide (name model = m)) as [<-|Hne].
      * rewrite lookup_insert_eq. eexists. split; [done|].
        by rewrite lookup_singleton_eq.
      * rewrite lookup_insert_ne by done. rewrite Hsbr. eauto.
    + unfold registered. simpl. rewrite lookup_insert_eq. eexists. split; [done|].
      by rewrite lookup_singleton_eq.
    + intros b Hb. destruct (Hout b Hb) as [? (l & Hl & Hmem)]. split; [done|].
      by exists l.
  - destruct Hout. split_and!; try done. intros m. unfold registered. by rewrite Hsbr.
Qed.

Lemma model_loop D models st :
  dom (dependingModelMap st) = D → no_repeats st →
  let r := forOf models perModel st in
  emitted r = [] ∧
  graph_step D st (final r) ∧
  (∀ m, registered st m → registered (final r) m) ∧
  match outcome_of r with
  | Returns _ =>
      ∀ model, model ∈ models →
        registered (final r) (name model) ∧
        ∀ a, a ∈ associations model → listOwner a ∈ D ∧ listed (final r) a
  | Throws e =>
      e = TypeError ∧
      ∃ model a, model ∈ models ∧ a ∈ associations model ∧ listOwner a ∉ D
  end.
Proof.
  revert st. induction models as [|model models IH]; intros st HD Hnd.
  - simpl. split_and!; eauto using graph_step_refl.
    intros model Hm. by apply elem_of_nil in Hm.
  - cbn [forOf]. rewrite run_bind.
    pose proof (perModel_step D model st HD Hnd) as (He & Hstep & Hreg & Hout).
    destruct (outcome_of (perModel model st)) eqn:Ho; cbn [emitted final outcome_of].
    + destruct Hout as (Hthis & Hassoc).
      destruct (IH (final (perModel model st))) as (He' & Hstep' & Hreg' & Hout');
        [apply Hstep..|].
      split_and!.
      * by rewrite He, He'.
      * by eapply graph_step_trans.
      * auto.
      * destruct (outcome_of (forOf models perModel _)).
        -- intros model' [->|Hm]%elem_of_cons; [|by apply Hout'].
           split; [by apply Hreg'|]. intros b Hb.
           destruct (Hassoc b Hb). split; [done|]. by apply Hstep'.
        -- destruct Hout' as (-> & model' & b & Hm & Hb & Hno). split; [done|].
           exists model', b. split_and!; [by apply elem_of_cons; right|done..].
    + destruct Hout as (-> & b & Hb & Hno). split_and!; try done.
      exists model, b. split_and!; [apply elem_of_cons; by left|done..].
Qed.

Lemma initial_map_lookup names k :
  foldl (λ (dmm : gmap string (list string)) model, <[model := []]> dmm) ∅ names !! k =
  if bool_decide (k ∈ names) then Some [] else None.
Proof.
  assert (∀ (d : gmap string (list string)),
    foldl (λ dmm model, <[model := []]> dmm) d names !! k =
    if bool_decide (k ∈ names) then Some [] else d !! k) as Hgen.
  { induction names as [|n names IH]; intros d; simpl; [done|].
    rewrite IH. destruct (decide (k = n)) as [->|Hne].
    - rewrite lookup_insert_eq.
      rewrite (bool_decide_eq_true_2 (n ∈ n :: names)) by (apply elem_of_cons; by left).
      by destruct (bool_decide (n ∈ names)).
    - rewrite lookup_insert_ne by done.
      destruct (bool_decide_reflect (k ∈ names)) as [Hin|Hin].
      + by rewrite bool_decide_eq_true_2 by (apply elem_of_cons; by right).
      + rewrite bool_decide_eq_false_2; [done|].
        by intros [?|?]%elem_of_cons. }
  by rewrite Hgen, lookup_empty.
Qed.

(** What the constructor answers: a tracker whose map has the model names
    as keys, lists without repeats and every association listed under its
    owner, or a TypeError when an association's owner is not a model. *)
Lemma constructor_spec models :
  match new_SequelizeChangeTracker models with
  | Returns st =>
      modelNames st = map name models ∧
      subscriptionsById st = ∅ ∧
      (∀ k, is_Some (dependingModelMap st !! k) ↔ k ∈ map name models) ∧
      no_repeats st ∧
      (∀ m, m ∈ map name models → registered st m) ∧
      (∀ model a, model ∈ models → a ∈ associations model →
         listOwner a ∈ map name models ∧ listed st a)
  | Throws e =>
      e = TypeError ∧
      ∃ model a, model ∈ models ∧ a ∈ associations model ∧
                 listOwner a ∉ map name models
  end.
Proof.
  set (names := map name models).
  set (st1 := Tracker names (foldl (λ dmm model, <[model := []]> dmm) ∅ names) ∅ ∅).
  assert (dom (dependingModelMap st1) = list_to_set names) as HD.
  { apply set_eq. intros k. rewrite elem_of_dom, elem_of_list_to_set. simpl.
    rewrite initial_map_lookup.
    destruct (bool_decide_reflect (k ∈ names)) as [Hin|Hin]; split; intros Hk; done. }
  assert (no_repeats st1) as Hnd.
  { intros k l. simpl. rewrite initial_map_lookup.
    destruct (bool_decide (k ∈ names)); intros [= <-]. apply NoDup_nil_2. }
  pose proof (model_loop _ models st1 HD Hnd) as (He & Hstep & Hreg & Hout).
  assert (new_SequelizeChangeTracker models =
          match outcome_of (forOf models perModel st1) with
          | Returns _ => Returns (final (forOf models perModel st1))
          | Throws e => Throws e
          end) as ->.
  { unfold new_SequelizeChangeTracker, constructor. rewrite !run_bind. simpl.
    fold names. fold st1. by destruct (outcome_of (forOf models perModel st1)). }
  destruct (outcome_of (forOf models perModel st1)).
  - destruct Hstep as [Hn Hb Hd Hr Hl]. split_and!; try done.
    + intros k. rewrite <- elem_of_dom, Hd. apply elem_of_list_to_set.
    + intros m (model & -> & Hm)%list_elem_of_fmap. by apply Hout.
    + intros model b Hm Hab. destruct (Hout model Hm) as [_ Hassoc].
      destruct (Hassoc b Hab) as [Hin ?]. split; [|done].
      by apply elem_of_list_to_set in Hin.
  - destruct Hout as (-> & model & b & Hm & Hab & Hno). split; [done|].
    exists model, b. split_and!; try done. by rewrite elem_of_list_to_set in Hno.
Qed.

(** ** The registers: what [addSubscription] does *)

Lemma run_get st : get st = Result (Returns st) st [].
Proof. reflexivity. Qed.

Lemma run_ret {A} (a : A) st : (mret a : M A) st = Result (Returns a) st [].
Proof. reflexivity. Qed.

Lemma run_emit e st : emit e st = Result (Returns tt) st [e].
Proof. reflexivity. Qed.

Lemma run_set_subscriptionsById v st :
  set_subscriptionsById v st =
  Result (Returns tt)
    (Tracker (modelNames st) (dependingModelMap st) (subscriptionsByResource st) v) [].
Proof. reflexivity. Qed.

Lemma run_set_subscriptionsByResource v st :
  set_subscriptionsByResource v st =
  Result (Returns tt)
    (Tracker (modelNames st) (dependingModelMap st) v (subscriptionsById st)) [].
Proof. reflexivity. Qed.

Lemma run_resource m st :
  resource m st =
  match subscriptionsByResource st !! m with
  | Some res => Result (Returns res) st []
  | None => Result (Throws TypeError) st []
  end.
Proof. unfold resource. rewrite run_bind, run_get. rsimpl. by destruct (_ !! m). Qed.

Lemma run_resource_push m p id st res arr :
  subscriptionsByResource st !! m = Some res → res !! p = Some arr →
  resource_push m p id st =
  Result (Returns tt)
    (Tracker (modelNames st) (dependingModelMap st)
       (<[m := <[p := arr ++ [id]]> res]> (subscriptionsByResource st))
       (subscriptionsById st)) [].
Proof.
  intros Hres Harr. unfold resource_push.
  rewrite run_bind, run_resource, Hres. rsimpl. rewrite Harr.
  by rewrite run_bind, run_get.
Qed.

Lemma run_byId_push sid o st arr :
  subscriptionsById st !! to_key sid = Some arr →
  byId_push sid o st =
  Result (Returns tt)
    (Tracker (modelNames st) (dependingModelMap st) (subscriptionsByResource st)
       (<[to_key sid := arr ++ [o]]> (subscriptionsById st))) [].
Proof.
  intros Harr. unfold byId_push. rewrite run_bind, run_get. rsimpl.
  by rewrite Harr.
Qed.

Lemma run_arrayOrEmpty {A} (obj : gmap string (list A)) key st :
  arrayOrEmpty obj key st =
  if usable obj key then Result (Returns (default [] (obj !! key))) st []
  else Result (Throws TypeError) st [].
Proof.
  unfold arrayOrEmpty, usable. destruct (obj !! key) as [arr|] eqn:Harr.
  - by rewrite bool_decide_eq_true_2 by eauto.
  - rewrite bool_decide_eq_false_2 by (by intros [? [=]]).
    by destruct (inherited key).
Qed.

Lemma usable_own {A} (obj : gmap string (list A)) key :
  is_Some (obj !! key) → usable obj key = true.
Proof. intros H. unfold usable. by rewrite bool_decide_eq_true_2. Qed.

Lemma usable_not_inherited {A} (obj : gmap string (list A)) key :
  inherited key = false → usable obj key = true.
Proof. intros H. unfold usable. rewrite H. apply orb_true_r. Qed.

Lemma falsy_at_usable {A} (obj : gmap string (list A)) key :
  usable obj key = true → falsy_at obj key = negb (bool_decide (is_Some (obj !! key))).
Proof.
  unfold usable, falsy_at. destruct (bool_decide (is_Some (obj !! key))); [done|].
  cbn [orb]. by intros ->%negb_true_iff.
Qed.

Lemma findSubscriptionIndices_run a st res :
  subscriptionsByResource st !! modelName a = Some res →
  findSubscriptionIndices a st =
  if usable (subscriptionsById st) (to_key (subscriptionId a)) &&
     usable res (if generic a then "generic" else to_key (instanceId a))
  then
    Result
      (Returns
         (findIndex (sameSubscription a)
            (default [] (subscriptionsById st !! to_key (subscriptionId a))),
          findIndex (λ id, bool_decide (id = subscriptionId a))
            (default [] (res !! (if generic a then "generic" else to_key (instanceId a))))))
      st []
  else Result (Throws TypeError) st [].
Proof.
  intros Hres. unfold findSubscriptionIndices.
  rewrite run_bind, run_get. rsimpl.
  rewrite run_bind, run_arrayOrEmpty.
  destruct (usable (subscriptionsById st) _); rsimpl; [|done].
  rewrite run_bind, run_resource, Hres. rsimpl.
  rewrite run_bind, run_arrayOrEmpty.
  by destruct (usable res _).
Qed.

Lemma addSubscription_run a st res :
  modelName a ∈ modelNames st →
  subscriptionsByResource st !! modelName a = Some res →
  is_Some (res !! "generic") →
  addSubscription a st =
  if accepts st a
  then
    Result (Returns tt)
      (Tracker (modelNames st) (dependingModelMap st)
         (<[modelName a :=
              <[modelProp (instanceId a) :=
                  default [] (res !! modelProp (instanceId a)) ++ [subscriptionId a]]> res]>
            (subscriptionsByResource st))
         (<[to_key (subscriptionId a) :=
              default [] (subscriptionsById st !! to_key (subscriptionId a)) ++ [entry a]]>
            (subscriptionsById st)))
      [SubscriptionsChanged (subscriptionId a) (modelName a) (instanceId a)
         (bool_decide (instanceId a = JUndefined))]
  else Result (Throws (refusal st a)) st [].
Proof.
  intros Hknown Hres [g Hg].
  unfold addSubscription, includes.
  rewrite run_bind, run_get. rsimpl.
  rewrite (bool_decide_eq_true_2 _ Hknown). cbn [negb].
  rewrite run_bind.
  rewrite (findSubscriptionIndices_run _ st res) by done.
  cbn [outcome_of final emitted subscriptionId modelName instanceId generic app].
  fold (as_added a). fold (modelProp (instanceId a)).
  unfold accepts, refusal, indexable, unseen. rewrite Hres. cbn [default from_option id].
  destruct (usable (subscriptionsById st) (to_key (subscriptionId a))) eqn:Husable;
    cbn [andb]; [|done].
  destruct (usable res (modelProp (instanceId a))) eqn:Husable';
    cbn [andb outcome_of final emitted app]; [|done].
  destruct (bool_decide_reflect
    (findIndex (sameSubscription (as_added a))
       (default [] (subscriptionsById st !! to_key (subscriptionId a))) = -1))
    as [Hfresh|Hdup]; cbn [negb]; [|done].
  rewrite run_bind, run_get. rsimpl.
  set (key := to_key (subscriptionId a)).
  set (arr := default [] (subscriptionsById st !! key)).
  set (st1 := Tracker (modelNames st) (dependingModelMap st)
                (subscriptionsByResource st) (<[key := arr]> (subscriptionsById st))).
  assert ((if falsy_at (subscriptionsById st) key
           then set_subscriptionsById (<[key := []]> (subscriptionsById st))
           else mret ()) st = Result (Returns tt) st1 []) as Hinit.
  { rewrite falsy_at_usable by done.
    unfold st1, arr. destruct (subscriptionsById st !! key) as [l|] eqn:Hl.
    - rewrite bool_decide_eq_true_2 by eauto. cbn [negb from_option].
      rewrite run_ret, insert_id by done. by destruct st.
    - rewrite bool_decide_eq_false_2 by (by intros [? [=]]). done. }
  rewrite run_bind, Hinit. rsimpl.
  assert (subscriptionsById st1 !! to_key (subscriptionId a) = Some arr) as Harr
    by apply lookup_insert_eq.
  unfold modelProp, entry.
  destruct (bool_decide_reflect (instanceId a = JUndefined)) as [Hund|Hund].
  - rewrite run_bind, run_bind. rewrite (run_byId_push _ _ st1 arr) by done. rsimpl.
    erewrite run_resource_push by (simpl; done). rsimpl.
    rewrite run_emit. rsimpl. rewrite Hg. subst st1 key. rsimpl.
    by rewrite insert_insert_eq.
  - rewrite run_bind, run_bind. rewrite (run_byId_push _ _ st1 arr) by done. rsimpl.
    rewrite run_bind, run_resource. rsimpl.
    change (subscriptionsByResource st1) with (subscriptionsByResource st).
    rewrite Hres. rsimpl.
    rewrite run_bind, run_get. rsimpl.
    set (p := to_key (instanceId a)).
    set (parr := default [] (res !! p)).
    rewrite run_bind.
    assert (∀ st2, subscriptionsByResource st2 = subscriptionsByResource st →
      (if negb (bool_decide (is_Some (res !! p)))
       then set_subscriptionsByResource
              (<[modelName a := <[p := []]> res]> (subscriptionsByResource st))
       else mret ()) st2 =
      Result (Returns tt)
        (Tracker (modelNames st2) (dependingModelMap st2)
           (<[modelName a := <[p := parr]> res]> (subscriptionsByResource st))
           (subscriptionsById st2)) []) as Hinit2.
    { intros st2 Hst2. unfold parr. destruct (res !! p) as [l|] eqn:Hl.
      - rewrite bool_decide_eq_true_2 by eauto. cbn [negb from_option].
        rewrite run_ret. rewrite (insert_id res) by done.
        rewrite insert_id by done. rewrite <- Hst2. by destruct st2.
      - rewrite bool_decide_eq_false_2 by (by intros [? [=]]). cbn [negb from_option].
        by rewrite run_set_subscriptionsByResource. }
    rewrite Hinit2 by done. rsimpl.
    erewrite run_resource_push;
      [|cbn [subscriptionsByResource]; apply lookup_insert_eq|apply lookup_insert_eq].
    rsimpl. rewrite run_emit. subst st1 key. rsimpl.
    by rewrite !insert_insert_eq.
Qed.

Lemma addSubscription_unknown a st :
  modelName a ∉ modelNames st →
  addSubscription a st =
  Result (Throws (Error ("Unknown model: " +:+ modelName a))) st [].
Proof.
  intros Hunknown. unfold addSubscription, includes.
  rewrite run_bind, run_get. rsimpl.
  by rewrite (bool_decide_eq_false_2 _ Hunknown).
Qed.

(** ** The removal methods *)

Lemma removeSubscription_run a st :
  removeSubscription a st = Result (Throws TypeError) st [].
Proof. reflexivity. Qed.

Lemma removeSubscriptionAllModels_run s st :
  removeSubscriptionAllModels s st =
  match subscriptionsById st !! to_key s with
  | Some [] => Result (Returns true) st []
  | _ => Result (Throws TypeError) st []
  end.
Proof.
  unfold removeSubscriptionAllModels, removeSubscriptionAllModels_with.
  rewrite run_bind, run_get. rsimpl.
  destruct (subscriptionsById st !! to_key s) as [arr|] eqn:Harr; [|done].
  cbn [forOfLive]. rewrite run_bind, run_get. rsimpl. rewrite Harr. rsimpl.
  destruct arr as [|x arr]; [done|].
  cbn [lookup list_lookup]. by rewrite run_bind, removeSubscription_run.
Qed.

(** ** Notification leaves the registers alone *)

Create HintDb readonly discriminated.

#[local] Hint Resolve readonly_ret readonly_throw readonly_emit readonly_resource : readonly.
#[local] Hint Extern 1 (readonly (_ ≫= _)) => apply readonly_bind; [|intros ?] : readonly.
#[local] Hint Extern 2 (readonly (match ?x with _ => _ end)) => destruct x : readonly.

Lemma readonly_get : readonly get.
Proof. by intros st. Qed.

#[local] Hint Resolve readonly_get : readonly.

Lemma readonly_arrayOrEmpty {A} (obj : gmap string (list A)) key :
  readonly (arrayOrEmpty obj key).
Proof. intros st. rewrite run_arrayOrEmpty. by destruct (usable obj key). Qed.

#[local] Hint Resolve readonly_arrayOrEmpty : readonly.

Lemma readonly_cascade deps data ids : readonly (cascade deps data ids).
Proof.
  revert ids. induction deps as [|d deps IH]; intros ids; cbn [cascade];
    auto with readonly.
Qed.

#[local] Hint Resolve readonly_cascade : readonly.

Lemma readonly_cascadeAndEmit m op f data ids : readonly (cascadeAndEmit m op f data ids).
Proof. unfold cascadeAndEmit. auto 8 with readonly. Qed.

#[local] Hint Resolve readonly_cascadeAndEmit : readonly.

Lemma readonly_notifySubscribers m op f data : readonly (notifySubscribers m op f data).
Proof. unfold notifySubscribers. auto 10 with readonly. Qed.

Lemma readonly_notifySubscribers_earlier m op f data :
  readonly (notifySubscribers_earlier m op f data).
Proof. unfold notifySubscribers_earlier. auto 10 with readonly. Qed.

Lemma readonly_findSubscriptionIndices a : readonly (findSubscriptionIndices a).
Proof. unfold findSubscriptionIndices. auto with readonly. Qed.

Lemma readonly_removeSubscription a : readonly (removeSubscription a).
Proof. by intros st. Qed.

Lemma readonly_removeSubscriptionAllModels s : readonly (removeSubscriptionAllModels s).
Proof.
  intros st. rewrite removeSubscriptionAllModels_run.
  by destruct (subscriptionsById st !! to_key s) as [[|]|].
Qed.

(** ** Well-formed trackers *)

Lemma wf_new models st : new_SequelizeChangeTracker models = Returns st → wf st.
Proof.
  intros Hnew. pose proof (constructor_spec models) as Hspec. rewrite Hnew in Hspec.
  destruct Hspec as (Hnames & Hbyid & Hkeys & _ & Hreg & _).
  split.
  - intros m Hm. apply Hreg. by rewrite <- Hnames.
  - intros m Hm. apply Hkeys. by rewrite <- Hnames.
  - intros k l o. by rewrite Hbyid, lookup_empty.
  - intros k. by rewrite Hbyid, lookup_empty.
Qed.

Lemma wf_addSubscription a : preserves wf (addSubscription a).
Proof.
  intros st Hwf.
  destruct (decide (modelName a ∈ modelNames st)) as [Hknown|Hunknown];
    [|by rewrite addSubscription_unknown].
  destruct (wf_registered st Hwf _ Hknown) as (res & Hres & Hgen).
  rewrite (addSubscription_run a st res) by done.
  destruct (accepts st a); [|done]. rsimpl.
  destruct Hwf as [Hreg Hgraph Hkn Hne]. split; rsimpl; try done.
  - intros m Hm. unfold registered. rsimpl.
    destruct (decide (modelName a = m)) as [<-|Hneq].
    + rewrite lookup_insert_eq. eexists. split; [done|].
      unfold modelProp. destruct (decide ("generic" =
        if bool_decide (instanceId a = JUndefined) then "generic"
        else to_key (instanceId a))) as [<-|Hp].
      * rewrite lookup_insert_eq. eauto.
      * by rewrite lookup_insert_ne.
    + rewrite lookup_insert_ne by done. by apply Hreg.
  - intros k l o.
    destruct (decide (to_key (subscriptionId a) = k)) as [<-|Hneq].
    + rewrite lookup_insert_eq. intros [= <-] [Ho|Ho]%elem_of_app.
      * destruct (subscriptionsById st !! to_key (subscriptionId a)) eqn:Hl;
          [by eapply Hkn | by apply elem_of_nil in Ho].
      * apply list_elem_of_singleton in Ho as ->. unfold entry.
        by destruct (bool_decide _).
    + rewrite lookup_insert_ne by done. apply Hkn.
  - intros k. destruct (decide (to_key (subscriptionId a) = k)) as [<-|Hneq].
    + rewrite lookup_insert_eq. intros [= Habs]. by destruct (default [] _).
    + rewrite lookup_insert_ne by done. apply Hne.
Qed.

Lemma wf_addSubscriptionIfRequested m i o : preserves wf (addSubscriptionIfRequested m i o).
Proof.
  unfold addSubscriptionIfRequested.
  assert (∀ l s, preserves wf (forOf l (λ inst : instance,
    addSubscription (SubscriptionObject s (inst_constructor_name inst) (inst_id inst) false))))
    as Hloop by (intros; apply preserves_forOf; intros; apply wf_addSubscription).
  destruct i; [apply preserves_ret|..];
    (destruct (trackChanges o) as [s|]; [|apply preserves_ret]);
    (destruct (negb (truthy s)); [apply preserves_throw | apply Hloop]).
Qed.

Lemma wf_after c : preserves wf (λ st, Result (Returns tt) (after c st) []).
Proof.
  intros st Hwf. rsimpl.
  destruct c as [a|a|s|a|m op f d| |m i o|m i o|m l o|m i o|m o|m i o|m o]; cbn [after].
  - by apply wf_addSubscription.
  - by rewrite readonly_removeSubscription.
  - by rewrite readonly_removeSubscriptionAllModels.
  - by rewrite readonly_findSubscriptionIndices.
  - by rewrite readonly_notifySubscribers.
  - done.
  - by apply wf_addSubscriptionIfRequested.
  - revert st Hwf. apply preserves_bind; [apply wf_addSubscriptionIfRequested|].
    intros _. apply readonly_preserves, readonly_notifySubscribers.
  - revert st Hwf. apply preserves_forOf. intros x.
    apply preserves_bind; [apply wf_addSubscriptionIfRequested|].
    intros _. apply readonly_preserves, readonly_notifySubscribers.
  - revert st Hwf. apply preserves_bind; [apply wf_addSubscriptionIfRequested|].
    intros _. apply readonly_preserves, readonly_notifySubscribers.
  - done.
  - unfold afterDestroy. by rewrite readonly_notifySubscribers.
  - done.
Qed.

Lemma reachable_wf st : reachable st → wf st.
Proof.
  induction 1 as [models st Hnew|c st _ IH].
  - by eapply wf_new.
  - by apply (wf_after c st).
Qed.

(** ** What [notifySubscribers] emits *)

Lemma cascade_run st deps data ids :
  (∀ d, d ∈ deps → is_Some (subscriptionsByResource st !! d)) →
  cascade deps data ids st =
  Result (Returns (ids ++ cascadeSubscribers st deps data)) st [].
Proof.
  revert ids. induction deps as [|d deps IH]; intros ids Hdeps; cbn [cascade].
  - unfold cascadeSubscribers. cbn [flat_map]. by rewrite app_nil_r.
  - destruct (Hdeps d) as [res Hres]; [apply elem_of_cons; by left|].
    rewrite run_bind, run_resource, Hres. rsimpl.
    rewrite IH by (intros; apply Hdeps, elem_of_cons; by right). rsimpl.
    unfold cascadeSubscribers. cbn [flat_map].
    unfold cascadeContribution at 2, lookupArr. rewrite Hres. cbn [mbind option_bind].
    destruct (res !! to_key (prop data (d +:+ "Id"))) as [arr|]; rsimpl.
    + destruct arr as [|x arr].
      * by rewrite bool_decide_eq_false_2 by (simpl; lia).
      * rewrite bool_decide_eq_true_2 by (simpl; lia). by rewrite <- app_assoc.
    + done.
Qed.

Lemma cascadeAndEmit_run st m op f data ids deps :
  dependingModelMap st !! m = Some deps →
  (∀ d, d ∈ deps → is_Some (subscriptionsByResource st !! d)) →
  cascadeAndEmit m op f data ids st =
  Result (Returns tt) st
    (match ids ++ cascadeSubscribers st deps data with
     | [] => []
     | all => [DataChanged op m data f all]
     end).
Proof.
  intros Hm Hdeps. unfold cascadeAndEmit.
  rewrite run_bind, run_get. rsimpl. rewrite Hm.
  rewrite run_bind, cascade_run by done. rsimpl.
  destruct (ids ++ cascadeSubscribers st deps data) as [|x all].
  - by rewrite bool_decide_eq_false_2 by (simpl; lia).
  - by rewrite bool_decide_eq_true_2 by (simpl; lia).
Qed.

Lemma notifySubscribers_run st m op f data deps :
  registered st m →
  dependingModelMap st !! m = Some deps →
  (∀ d, d ∈ deps → is_Some (subscriptionsByResource st !! d)) →
  notifySubscribers m op f data st =
  if spreads st m op data
  then
    Result (Returns tt) st
      (match directSubscribers st m op data ++ cascadeSubscribers st deps data with
       | [] => []
       | all => [DataChanged op m data f all]
       end)
  else Result (Throws TypeError) st [].
Proof.
  intros (res & Hres & g & Hg) Hm Hdeps. unfold notifySubscribers, spreads.
  rewrite Hres. cbn [default from_option id].
  rewrite run_bind.
  assert ((if includes genericOperations op
           then res ← resource m;
                match res !! "generic" with
                | Some arr => mret arr
                | None => throw TypeError
                end
           else mret []) st =
          Result (Returns (if includes genericOperations op
                           then lookupArr st m "generic" else [])) st []) as ->.
  { destruct (includes genericOperations op); [|done].
    rewrite run_bind, run_resource, Hres. rsimpl. rewrite Hg.
    unfold lookupArr. rewrite Hres. cbn [mbind option_bind]. by rewrite Hg. }
  rsimpl. rewrite run_bind.
  assert ((if includes specificOperations op
           then res ← resource m; arrayOrEmpty res (to_key (prop data "id"))
           else mret []) st =
          if negb (includes specificOperations op) || usable res (to_key (prop data "id"))
          then Result (Returns (if includes specificOperations op
                                then lookupArr st m (to_key (prop data "id")) else [])) st []
          else Result (Throws TypeError) st [])
    as ->.
  { destruct (includes specificOperations op); [|done]. cbn [negb orb].
    rewrite run_bind, run_resource, Hres. rsimpl. rewrite run_arrayOrEmpty.
    destruct (usable res _); [|done]. rsimpl.
    unfold lookupArr. by rewrite Hres. }
  destruct (negb (includes specificOperations op) || usable res _); [|done].
  rsimpl. by rewrite (cascadeAndEmit_run st m op f data _ deps).
Qed.

(** ** Arrays: [findIndex], [new Set], counting *)

Lemma findIndex_ge {A} (p : A → bool) l : -1 ≤ findIndex p l.
Proof.
  induction l as [|x l IH]; simpl; [lia|].
  destruct (p x); [lia|]. case_bool_decide; lia.
Qed.

Lemma findIndex_found {A} (p : A → bool) l x :
  x ∈ l → p x = true → findIndex p l ≠ -1.
Proof.
  induction l as [|y l IH]; [by intros ?%elem_of_nil|].
  intros [->|Hx]%elem_of_cons Hp; simpl.
  - rewrite Hp. lia.
  - destruct (p y); [lia|]. specialize (IH Hx Hp).
    rewrite bool_decide_eq_false_2 by done. pose proof (findIndex_ge p l). lia.
Qed.

Lemma Set_add_spec s l x : x ∈ foldl Set_add s l ↔ x ∈ s ∨ x ∈ l.
Proof.
  revert s. induction l as [|y l IH]; intros s; simpl.
  - rewrite elem_of_nil. tauto.
  - rewrite IH, elem_of_cons. unfold Set_add, includes.
    destruct (bool_decide_reflect (y ∈ s)) as [Hy|Hy].
    + split; [tauto|]. intros [?|[->|?]]; tauto.
    + rewrite elem_of_app, list_elem_of_singleton. tauto.
Qed.

Lemma Set_add_NoDup s l : NoDup s → NoDup (foldl Set_add s l).
Proof.
  revert s. induction l as [|y l IH]; intros s Hs; simpl; [done|].
  apply IH. unfold Set_add, includes.
  destruct (bool_decide_reflect (y ∈ s)) as [Hy|Hy]; [done|].
  apply NoDup_app. split_and!; [done| |apply NoDup_singleton].
  by intros x Hx ->%list_elem_of_singleton.
Qed.

Lemma Set_add_fresh s l : NoDup (s ++ l) → foldl Set_add s l = s ++ l.
Proof.
  revert s. induction l as [|y l IH]; intros s Hnd; simpl; [by rewrite app_nil_r|].
  assert (y ∉ s) as Hy.
  { apply NoDup_app in Hnd as (_ & Hdisj & _). intros Hin.
    apply (Hdisj y Hin). apply elem_of_cons. by left. }
  unfold Set_add, includes. rewrite bool_decide_eq_false_2 by done.
  rewrite IH; rewrite <- app_assoc; done.
Qed.

Lemma Set_add_known s l : (∀ x, x ∈ l → x ∈ s) → foldl Set_add s l = s.
Proof.
  revert s. induction l as [|y l IH]; intros s Hsub; simpl; [done|].
  unfold Set_add, includes.
  rewrite bool_decide_eq_true_2 by (apply Hsub, elem_of_cons; by left).
  apply IH. intros x Hx. apply Hsub, elem_of_cons. by right.
Qed.

Lemma new_Set_NoDup l : NoDup (new_Set l).
Proof. apply Set_add_NoDup, NoDup_nil_2. Qed.

Lemma new_Set_id l : NoDup l → new_Set l = l.
Proof. intros Hl. unfold new_Set. by rewrite Set_add_fresh. Qed.

Lemma new_Set_app_known g s :
  NoDup g → (∀ x, x ∈ s → x ∈ g) → new_Set (g ++ s) = g.
Proof.
  intros Hg Hs. unfold new_Set. rewrite foldl_app.
  fold (new_Set g). rewrite new_Set_id by done. by apply Set_add_known.
Qed.

Lemma occurrences_notin x l : x ∉ l → occurrences x l = 0%nat.
Proof.
  unfold occurrences. induction l as [|y l IH]; intros Hx; [done|].
  rewrite filter_cons. apply not_elem_of_cons in Hx as [Hne Hx].
  rewrite decide_False by done. by apply IH.
Qed.

Lemma occurrences_once x l : NoDup l → x ∈ l → occurrences x l = 1%nat.
Proof.
  unfold occurrences. induction l as [|y l IH]; intros Hnd Hx; [by apply elem_of_nil in Hx|].
  apply NoDup_cons in Hnd as [Hy Hnd]. rewrite filter_cons.
  destruct (decide (y = x)) as [->|Hne].
  - simpl. f_equal. by apply occurrences_notin.
  - apply elem_of_cons in Hx as [->|Hx]; [done|]. by apply IH.
Qed.

Lemma run_bind_pure {A B} (m : M A) (k : A → M B) st x :
  m st = Result (Returns x) st [] → (m ≫= k) st = k x st.
Proof. intros Hm. rewrite run_bind, Hm. rsimpl. by destruct (k x st). Qed.

(** ** Every call, given what [addSubscription] keeps *)

Lemma preserves_addSubscriptionIfRequested (Q : tracker → Prop) m i o :
  (∀ a, preserves Q (addSubscription a)) →
  preserves Q (addSubscriptionIfRequested m i o).
Proof.
  intros Hadd. unfold addSubscriptionIfRequested.
  destruct i as [|inst|l]; [apply preserves_ret|..];
    (destruct (trackChanges o) as [s|]; [|apply preserves_ret]);
    (destruct (negb (truthy s)); [apply preserves_throw|]);
    apply preserves_forOf; intros x; apply Hadd.
Qed.

Lemma preserves_after (Q : tracker → Prop) c st :
  (∀ a, preserves Q (addSubscription a)) → Q st → Q (after c st).
Proof.
  intros Hadd HQ.
  pose proof (preserves_addSubscriptionIfRequested Q) as Hreq.
  assert (∀ m op f d, preserves Q (notifySubscribers m op f d)) as Hnot
    by (intros; apply readonly_preserves, readonly_notifySubscribers).
  destruct c as [a|a|s|a|m op f d| |m i o|m i o|m l o|m i o|m o|m i o|m o]; cbn [after].
  - by apply Hadd.
  - by rewrite readonly_removeSubscription.
  - by rewrite readonly_removeSubscriptionAllModels.
  - by rewrite readonly_findSubscriptionIndices.
  - by apply Hnot.
  - done.
  - by apply (Hreq m i o).
  - revert st HQ. unfold afterCreate. apply (preserves_bind Q); [by apply Hreq|].
    intros _. apply Hnot.
  - revert st HQ. unfold afterBulkCreate. apply (preserves_forOf Q). intros x.
    apply preserves_bind; [by apply Hreq|]. intros _. apply Hnot.
  - revert st HQ. unfold afterUpdate. apply (preserves_bind Q); [by apply Hreq|].
    intros _. apply Hnot.
  - done.
  - unfold afterDestroy. by apply Hnot.
  - done.
Qed.

(** ** The registers hold own properties only *)

Lemma constructor_run models :
  new_SequelizeChangeTracker models =
  match outcome_of (forOf models perModel (initial models)) with
  | Returns _ => Returns (final (forOf models perModel (initial models)))
  | Throws e => Throws e
  end.
Proof.
  unfold new_SequelizeChangeTracker, constructor. rewrite !run_bind. simpl.
  fold (initial models). by destruct (outcome_of (forOf models perModel (initial models))).
Qed.

Lemma registerDepending_byResource owner dep (sbr : gmap string (gmap string (list jsval))) :
  preserves (λ st, subscriptionsByResource st = sbr) (registerDepending owner dep).
Proof.
  intros st Hst. rewrite registerDepending_run.
  destruct (dependingModelMap st !! owner) as [l|]; [|done]. rsimpl.
  by destruct (includes l dep).
Qed.

Lemma perModel_byResource model st :
  outcome_of (perModel model st) = Returns tt →
  subscriptionsByResource (final (perModel model st)) =
  <[name model := {[ "generic" := [] ]}]> (subscriptionsByResource st).
Proof.
  unfold perModel. rewrite run_bind.
  assert (subscriptionsByResource (final (forOf (associations model) addAssociation st)) =
          subscriptionsByResource st) as Hsame.
  { apply (preserves_forOf (λ st', subscriptionsByResource st' = subscriptionsByResource st));
      [|done].
    intros a. rewrite addAssociation_registerDepending. apply registerDepending_byResource. }
  destruct (outcome_of (forOf (associations model) addAssociation st)); rsimpl;
    [|intros; discriminate].
  intros _. rewrite run_bind, run_get. rsimpl.
  by rewrite run_set_subscriptionsByResource, Hsame.
Qed.

Lemma model_loop_byResource models st k :
  outcome_of (forOf models perModel st) = Returns tt →
  subscriptionsByResource (final (forOf models perModel st)) !! k =
  if bool_decide (k ∈ map name models) then Some {[ "generic" := [] ]}
  else subscriptionsByResource st !! k.
Proof.
  revert st. induction models as [|model models IH]; intros st; cbn [forOf map].
  - intros _. by rewrite bool_decide_eq_false_2 by apply not_elem_of_nil.
  - rewrite run_bind.
    destruct (outcome_of (perModel model st)) as [[]|] eqn:Ho; rsimpl; [|done].
    intros Hrest. rewrite IH by done.
    rewrite perModel_byResource by done.
    destruct (bool_decide_reflect (k ∈ map name models)) as [Hin|Hin].
    + by rewrite bool_decide_eq_true_2 by (apply elem_of_cons; by right).
    + destruct (decide (k = name model)) as [->|Hne].
      * rewrite lookup_insert_eq. by rewrite bool_decide_eq_true_2 by (apply elem_of_cons; by left).
      * rewrite lookup_insert_ne by done.
        rewrite bool_decide_eq_false_2; [done|]. by intros [?|?]%elem_of_cons.
Qed.

Lemma new_byResource models st k :
  new_SequelizeChangeTracker models = Returns st →
  subscriptionsByResource st !! k =
  if bool_decide (k ∈ map name models) then Some {[ "generic" := [] ]} else None.
Proof.
  intros Hnew. rewrite constructor_run in Hnew.
  destruct (outcome_of (forOf models perModel (initial models))) as [[]|] eqn:Ho; [|done].
  injection Hnew as <-. by rewrite model_loop_byResource.
Qed.

Lemma resourceKey_entry a : resourceKey (entry a) = modelProp (instanceId a).
Proof. unfold resourceKey, entry, modelProp. by destruct (bool_decide _). Qed.

Lemma so_modelName_entry a : so_modelName (entry a) = modelName a.
Proof. unfold entry. by destruct (bool_decide _). Qed.

Lemma usable_inherited {A} (obj : gmap string (list A)) key :
  (is_Some (obj !! key) → inherited key = false) →
  usable obj key = negb (inherited key).
Proof.
  intros Hown. unfold usable.
  destruct (bool_decide_reflect (is_Some (obj !! key))) as [Hs|Hs]; [|done].
  by rewrite (Hown Hs).
Qed.

(** A new tracker has the ['generic'] arrays and nothing else. *)
Lemma own_names_new models st :
  new_SequelizeChangeTracker models = Returns st → own_names st ∧ backed st.
Proof.
  intros Hnew. pose proof (constructor_spec models) as Hspec. rewrite Hnew in Hspec.
  destruct Hspec as (_ & Hbyid & _). split; [split|].
  - intros k. rewrite Hbyid, lookup_empty. by intros [? [=]].
  - intros m res p Hres Hp. rewrite (new_byResource models st m Hnew) in Hres.
    destruct (bool_decide (m ∈ map name models)); [|done]. injection Hres as <-.
    destruct (decide (p = "generic")) as [->|Hne]; [done|].
    rewrite lookup_singleton_ne in Hp by done. by destruct Hp.
  - intros k l o. by rewrite Hbyid, lookup_empty.
Qed.

(** [addSubscription] files a subscription under names that are not
    inherited, and gives every entry its array. *)
Lemma sound_addSubscription a :
  preserves (λ st, wf st ∧ own_names st ∧ backed st) (addSubscription a).
Proof.
  intros st (Hwf & Hown & Hback). split; [by apply wf_addSubscription|].
  destruct (decide (modelName a ∈ modelNames st)) as [Hknown|Hunknown];
    [|by rewrite addSubscription_unknown].
  destruct (wf_registered st Hwf _ Hknown) as (res & Hres & Hgen).
  rewrite (addSubscription_run a st res) by done.
  destruct (accepts st a) eqn:Hacc; [|done]. rsimpl.
  unfold accepts, indexable in Hacc. rewrite Hres in Hacc.
  cbn [default from_option id] in Hacc.
  apply andb_true_iff in Hacc as [[Hu1 Hu2]%andb_true_iff _].
  destruct Hown as [Hown1 Hown2].
  rewrite usable_inherited in Hu1 by apply Hown1.
  rewrite usable_inherited in Hu2 by apply (Hown2 _ _ _ Hres).
  apply negb_true_iff in Hu1, Hu2.
  split; [split|].
  - intros k. rsimpl. destruct (decide (to_key (subscriptionId a) = k)) as [<-|Hne]; [done|].
    rewrite lookup_insert_ne by done. apply Hown1.
  - intros m res' p. rsimpl. destruct (decide (modelName a = m)) as [<-|Hne].
    + rewrite lookup_insert_eq. intros [= <-].
      destruct (decide (modelProp (instanceId a) = p)) as [<-|Hp]; [done|].
      rewrite lookup_insert_ne by done. by apply (Hown2 _ _ _ Hres).
    + rewrite lookup_insert_ne by done. apply Hown2.
  - assert (∀ o,
      (∃ res0, subscriptionsByResource st !! so_modelName o = Some res0 ∧
               is_Some (res0 !! resourceKey o)) →
      ∃ res',
        <[modelName a :=
            <[modelProp (instanceId a) :=
                default [] (res !! modelProp (instanceId a)) ++ [subscriptionId a]]> res]>
          (subscriptionsByResource st) !! so_modelName o = Some res' ∧
        is_Some (res' !! resourceKey o)) as Hmono.
    { intros o (res0 & Hr0 & Hs0).
      destruct (decide (modelName a = so_modelName o)) as [Heq|Hne].
      - rewrite <- Heq in *. rewrite Hres in Hr0. injection Hr0 as <-.
        eexists. rewrite lookup_insert_eq. split; [done|].
        destruct (decide (modelProp (instanceId a) = resourceKey o)) as [<-|Hp].
        + rewrite lookup_insert_eq. eauto.
        + by rewrite lookup_insert_ne.
      - eexists. rewrite lookup_insert_ne by done. eauto. }
    intros k l o. rsimpl.
    destruct (decide (to_key (subscriptionId a) = k)) as [<-|Hne].
    + rewrite lookup_insert_eq. intros [= <-] [Ho|Ho]%elem_of_app.
      * apply Hmono.
        destruct (subscriptionsById st !! to_key (subscriptionId a)) eqn:Hl;
          [by eapply Hback | by apply elem_of_nil in Ho].
      * apply list_elem_of_singleton in Ho as ->.
        rewrite resourceKey_entry, so_modelName_entry.
        eexists. rewrite !lookup_insert_eq. eauto.
    + rewrite lookup_insert_ne by done. intros Hl Ho. apply Hmono. by eapply Hback.
Qed.

(** On a tracker in use the registers are well formed, hold own
    properties under names that are not inherited, and every entry has its
    array. *)
Lemma reachable_sound st : reachable st → wf st ∧ own_names st ∧ backed st.
Proof.
  induction 1 as [models st Hnew|c st _ IH].
  - split; [by eapply wf_new | by eapply own_names_new].
  - by apply (preserves_after (λ st, wf st ∧ own_names st ∧ backed st));
      [apply sound_addSubscription|].
Qed.

(** On a tracker in use a read [( obj[ key ] || [] )] of a register gives
    an array exactly when the key is not an inherited name. *)
Lemma usable_byId st key :
  reachable st → usable (subscriptionsById st) key = negb (inherited key).
Proof. intros (_ & [Hown _] & _)%reachable_sound. apply usable_inherited, Hown. Qed.

Lemma usable_byResource st m res key :
  reachable st → subscriptionsByResource st !! m = Some res →
  usable res key = negb (inherited key).
Proof.
  intros (_ & [_ Hown] & _)%reachable_sound Hres.
  apply usable_inherited. by apply (Hown m).
Qed.

Lemma indexable_reachable st a :
  reachable st → modelName a ∈ modelNames st →
  indexable st a =
  negb (inherited (to_key (subscriptionId a))) && negb (inherited (modelProp (instanceId a))).
Proof.
  intros Hreach Hknown. pose proof (reachable_wf st Hreach) as Hwf.
  destruct (wf_registered st Hwf _ Hknown) as (res & Hres & _).
  unfold indexable. rewrite Hres. cbn [default from_option id].
  by rewrite usable_byId, (usable_byResource st (modelName a) res).
Qed.

Lemma spreads_reachable st m op data :
  reachable st → m ∈ modelNames st →
  spreads st m op data =
  negb (includes specificOperations op) || negb (inherited (to_key (prop data "id"))).
Proof.
  intros Hreach Hknown. pose proof (reachable_wf st Hreach) as Hwf.
  destruct (wf_registered st Hwf _ Hknown) as (res & Hres & _).
  unfold spreads. rewrite Hres. cbn [default from_option id].
  by rewrite (usable_byResource st m res).
Qed.

(** * The claims *)

Lemma new_messages_and_users :
  new_SequelizeChangeTracker [Message; User] = Returns messages_and_users.
Proof. vm_compute. reflexivity. Qed.

Lemma reachable_messages_and_users : reachable messages_and_users.
Proof. eapply reachable_new, new_messages_and_users. Qed.

(** C1, as the code has it.  For every association of every model passed to
    a constructor call that returns, the model that holds the foreign key
    (the source of a BelongsTo or BelongsToMany, the target of a HasOne or
    HasMany: [listOwner]) is a key of the map of depending models, and its
    list holds the referenced model ([dependentModel]) exactly once,
    whichever side declared the association and however often. *)
Theorem C1_referenced_model_listed_once models st model a :
  new_SequelizeChangeTracker models = Returns st →
  model ∈ models →
  a ∈ associations model →
  ∃ l, dependingModelMap st !! listOwner a = Some l ∧
       occurrences (dependentModel a) l = 1%nat.
Proof.
  intros Hnew Hm Ha. pose proof (constructor_spec models) as Hspec.
  rewrite Hnew in Hspec. destruct Hspec as (_ & _ & _ & Hnd & _ & Hlisted).
  destruct (Hlisted model a Hm Ha) as (_ & l & Hl & Hin).
  exists l. split; [done|]. apply occurrences_once; [by eapply Hnd | done].
Qed.

Lemma C1_witness :
  new_SequelizeChangeTracker [Message; User] = Returns messages_and_users ∧
  ∃ l, dependingModelMap messages_and_users !! "Message" = Some l ∧
       occurrences "User" l = 1%nat.
Proof.
  split; [vm_compute; reflexivity|].
  apply (C1_referenced_model_listed_once [Message; User] messages_and_users Message
           (Association BelongsTo "Message" "User")).
  - vm_compute. reflexivity.
  - apply elem_of_cons. left. reflexivity.
  - apply elem_of_cons. left. reflexivity.
Defined.

(** C1, as stated, fails: [Message.belongsTo( User )] makes Message the
    holder of the reference to User, and the list of User does not hold
    Message; the list of Message holds User. *)
Lemma C1_counterexample :
  ∃ st l,
    new_SequelizeChangeTracker [Message; User] = Returns st ∧
    Association BelongsTo "Message" "User" ∈ associations Message ∧
    dependingModelMap st !! "User" = Some l ∧
    occurrences "Message" l ≠ 1%nat ∧
    dependingModelMap st !! "Message" = Some ["User"].
Proof.
  exists messages_and_users, []. split_and!.
  - apply new_messages_and_users.
  - apply elem_of_cons. by left.
  - by vm_compute.
  - by vm_compute.
  - by vm_compute.
Qed.

(** C2 at a concrete input: after [addSubscription] returned for a generic
    subscription on User, [removeSubscription] with the same tuple throws a
    TypeError and the registers stay as the addition left them, not as
    they were before. *)
Theorem C2_remove_after_add_throws :
  let added := addSubscription generic_on_User messages_and_users in
  reachable messages_and_users ∧
  outcome_of added = Returns tt ∧
  removeSubscription generic_on_User (final added) =
    Result (Throws TypeError) (final added) [] ∧
  subscriptionsById (final added) ≠ subscriptionsById messages_and_users ∧
  subscriptionsByResource (final added) ≠ subscriptionsByResource messages_and_users.
Proof.
  split_and!.
  - apply reachable_messages_and_users.
  - by vm_compute.
  - apply removeSubscription_run.
  - intros Heq. apply (f_equal (λ m, m !! "1")) in Heq. vm_compute in Heq. done.
  - intros Heq. apply (f_equal (λ m, m !! "User" ≫= λ res, res !! "generic")) in Heq.
    vm_compute in Heq. done.
Qed.

(** C3 at a concrete input: subscription 1 is generic on Message and
    specific on the user [u1]; creating a message of [u1] emits one event
    whose [subscriptionIds] holds 1 twice. *)
Theorem C3_cascade_repeats_subscriber :
  reachable with_both ∧
  emitted (notifySubscribers "Message" op_create [] message_m1 with_both) =
    [DataChanged op_create "Message" message_m1 [] [JNum 1; JNum 1]] ∧
  ¬ NoDup [JNum 1; JNum 1].
Proof.
  split_and!.
  - do 2 apply reachable_call. apply reachable_messages_and_users.
  - by vm_compute.
  - intros Hnd. apply NoDup_cons in Hnd as [Hnotin _]. apply Hnotin.
    apply elem_of_cons. by left.
Qed.

(** C4 at a concrete input: after [addSubscription] for the User instance
    with id ['generic'], [s1] is in the ['generic'] array of User in
    [subscriptionsByResource] while [subscriptionsById] holds no generic
    entry for it, only the specific one. *)
Theorem C4_instance_named_generic_breaks_agreement :
  reachable with_instance_generic ∧
  outcome_of (addSubscription on_instance_generic messages_and_users) = Returns tt ∧
  subscriptionsById with_instance_generic !! "s1" =
    Some [SubObj "User" false (JStr "generic")] ∧
  lookupArr with_instance_generic "User" "generic" = [JStr "s1"] ∧
  (SubObj "User" true JUndefined ∉
     default [] (subscriptionsById with_instance_generic !! to_key (JStr "s1"))) ∧
  (JStr "s1" ∈ lookupArr with_instance_generic "User" "generic").
Proof.
  split_and!.
  - apply reachable_call, reachable_messages_and_users.
  - by vm_compute.
  - by vm_compute.
  - by vm_compute.
  - assert (default [] (subscriptionsById with_instance_generic !! to_key (JStr "s1")) =
            [SubObj "User" false (JStr "generic")]) as -> by (by vm_compute).
    intros Habs%list_elem_of_singleton. discriminate.
  - assert (lookupArr with_instance_generic "User" "generic" = [JStr "s1"]) as ->
      by (by vm_compute).
    apply elem_of_cons. by left.
Qed.

(** C5 at a concrete input: subscription 1 holds two subscriptions;
    [removeSubscriptionAllModels( 1 )] throws a TypeError on the first of
    them and removes nothing. *)
Theorem C5_removeSubscriptionAllModels_throws :
  reachable with_two_generic ∧
  subscriptionsById with_two_generic !! to_key (JNum 1) =
    Some [SubObj "User" true JUndefined; SubObj "Message" true JUndefined] ∧
  removeSubscriptionAllModels (JNum 1) with_two_generic =
    Result (Throws TypeError) with_two_generic [].
Proof.
  split_and!.
  - do 2 apply reachable_call. apply reachable_messages_and_users.
  - by vm_compute.
  - rewrite removeSubscriptionAllModels_run.
    assert (subscriptionsById with_two_generic !! to_key (JNum 1) =
      Some [SubObj "User" true JUndefined; SubObj "Message" true JUndefined]) as ->
      by (by vm_compute).
    done.
Qed.




(** C7.  On a tracker built by the constructor and used, if
    [subscriptionsById] already holds the entry of a subscription tuple,
    [addSubscription] with the same tuple throws the error
    ['Already subscribed'], leaves the tracker as it was and emits
    nothing. *)
Theorem C7_duplicate_subscription_rejected st a :
  reachable st →
  entry a ∈ default [] (subscriptionsById st !! to_key (subscriptionId a)) →
  addSubscription a st = Result (Throws (Error "Already subscribed")) st [].
Proof.
  intros Hreach Hin. pose proof (reachable_sound st Hreach) as (Hwf & _ & Hback).
  destruct (subscriptionsById st !! to_key (subscriptionId a)) as [l|] eqn:Hl;
    [|by apply elem_of_nil in Hin].
  cbn [default from_option] in Hin.
  assert (modelName a ∈ modelNames st) as Hknown.
  { rewrite <- so_modelName_entry. by apply (wf_known st Hwf _ _ _ Hl). }
  destruct (wf_registered st Hwf _ Hknown) as (res & Hres & Hgen).
  assert (indexable st a = true) as Hindexable.
  { unfold indexable. rewrite Hres. cbn [default from_option id].
    rewrite usable_own by (by rewrite Hl).
    destruct (Hback _ _ _ Hl Hin) as (res' & Hres' & Hown).
    rewrite so_modelName_entry, Hres in Hres'. injection Hres' as <-.
    rewrite resourceKey_entry in Hown. by rewrite usable_own. }
  rewrite (addSubscription_run a st res) by done.
  unfold accepts, refusal, unseen. rewrite Hindexable, Hl. cbn [andb default from_option].
  rewrite bool_decide_eq_false_2; [done|].
  apply (findIndex_found _ _ (entry a)); [done|].
  unfold sameSubscription, entry, as_added. cbn [modelName generic instanceId].
  destruct (bool_decide_reflect (instanceId a = JUndefined));
    cbn [so_modelName so_generic so_instanceId];
    by rewrite !bool_decide_eq_true_2.
Qed.

Lemma C7_witness :
  reachable with_both ∧
  entry specific_on_u1 ∈
    default [] (subscriptionsById with_both !! to_key (subscriptionId specific_on_u1)) ∧
  addSubscription specific_on_u1 with_both =
    Result (Throws (Error "Already subscribed")) with_both [].
Proof.
  assert (reachable with_both) as Hreach.
  { apply reachable_call, reachable_call, reachable_messages_and_users. }
  assert (entry specific_on_u1 ∈
    default [] (subscriptionsById with_both !! to_key (subscriptionId specific_on_u1)))
    as Hin.
  { apply (bool_decide_unpack _). vm_compute. exact I. }
  split; [exact Hreach|]. split; [exact Hin|].
  exact (C7_duplicate_subscription_rejected with_both specific_on_u1 Hreach Hin).
Defined.

(** C8 at concrete inputs: with a subscription registered for the
    instance id [null], a created message whose [UserId] is [null] is
    cascaded to that subscriber; with one registered for the instance id
    ['undefined'], so is a created message that has no [UserId] at all. *)
Theorem C8_null_and_absent_foreign_keys_cascade :
  (reachable with_instance_null ∧
   dependingModelMap with_instance_null !! "Message" = Some ["User"] ∧
   prop message_null_user "UserId" = JNull ∧
   cascadeContribution with_instance_null message_null_user "User" = [JNum 1] ∧
   notifySubscribers "Message" op_create [] message_null_user with_instance_null =
     Result (Returns tt) with_instance_null
       [DataChanged op_create "Message" message_null_user [] [JNum 1]]) ∧
  (reachable with_instance_undefined ∧
   dependingModelMap with_instance_undefined !! "Message" = Some ["User"] ∧
   message_no_user !! "UserId" = None ∧
   cascadeContribution with_instance_undefined message_no_user "User" = [JNum 1] ∧
   notifySubscribers "Message" op_create [] message_no_user with_instance_undefined =
     Result (Returns tt) with_instance_undefined
       [DataChanged op_create "Message" message_no_user [] [JNum 1]]).
Proof.
  split; split_and!; try (by vm_compute);
    apply reachable_call, reachable_messages_and_users.
Qed.

(** C9, as the code has it.  The constructor throws, a TypeError, exactly
    when for some association the model that owns the list it adds to (the
    source of a BelongsTo or BelongsToMany, the target of a HasOne or
    HasMany) is not one of the models passed; when it returns, the keys of
    the map are exactly the names of the models passed. *)
Theorem C9_construction_fails_iff_owner_unknown models :
  (new_SequelizeChangeTracker models = Throws TypeError ↔
   ∃ model a, model ∈ models ∧ a ∈ associations model ∧
              listOwner a ∉ map name models) ∧
  (∀ e, new_SequelizeChangeTracker models = Throws e → e = TypeError) ∧
  (∀ st, new_SequelizeChangeTracker models = Returns st →
     ∀ k, is_Some (dependingModelMap st !! k) ↔ k ∈ map name models).
Proof.
  pose proof (constructor_spec models) as Hspec.
  destruct (new_SequelizeChangeTracker models) as [st|e].
  - destruct Hspec as (_ & _ & Hkeys & _ & _ & Hlisted). split_and!.
    + split; [done|]. intros (model & a & Hm & Ha & Hno).
      by destruct (Hlisted model a Hm Ha).
    + done.
    + by intros ? [= <-].
  - destruct Hspec as (-> & Hex). split_and!; [done| |done].
    by intros ? [= <-].
Qed.

Lemma C9_witness :
  (∃ model a, model ∈ [UserAlone] ∧ a ∈ associations model ∧
              listOwner a ∉ map name [UserAlone]) ∧
  new_SequelizeChangeTracker [UserAlone] = Throws TypeError.
Proof.
  assert (∃ model a, model ∈ [UserAlone] ∧ a ∈ associations model ∧
                     listOwner a ∉ map name [UserAlone]) as Hex.
  { exists UserAlone, (Association HasMany "User" "Message"). split_and!.
    - apply elem_of_cons. left. reflexivity.
    - apply elem_of_cons. left. reflexivity.
    - apply (bool_decide_unpack _). vm_compute. exact I. }
  split; [exact Hex|].
  exact (proj2 (proj1 (C9_construction_fails_iff_owner_unknown [UserAlone])) Hex).
Defined.

(** C9, as stated, fails: [Message.belongsTo( User )] with only Message
    passed to the constructor builds a map that lists User, and nothing is
    thrown. *)
Lemma C9_counterexample :
  ∃ st,
    new_SequelizeChangeTracker [Message] = Returns st ∧
    ("User" ∉ map name [Message]) ∧
    dependingModelMap st !! "Message" = Some ["User"].
Proof.
  eexists. split_and!.
  - vm_compute. reflexivity.
  - apply (bool_decide_unpack _). by vm_compute.
  - by vm_compute.
Qed.

Lemma run_resource_array st m res p arr :
  subscriptionsByResource st !! m = Some res → res !! p = Some arr →
  (res0 ← resource m;
   match res0 !! p with
   | Some arr => mret arr
   | None => throw TypeError
   end) st = Result (Returns arr) st [].
Proof.
  intros Hres Harr. rewrite run_bind, run_resource, Hres. rsimpl. by rewrite Harr.
Qed.

Lemma run_resource_default st m res p :
  subscriptionsByResource st !! m = Some res →
  usable res p = true →
  (res0 ← resource m; arrayOrEmpty res0 p) st =
  Result (Returns (default [] (res !! p))) st [].
Proof.
  intros Hres Husable. rewrite run_bind, run_resource, Hres. rsimpl.
  by rewrite run_arrayOrEmpty, Husable.
Qed.

Lemma run_resource_inherited st m res p :
  subscriptionsByResource st !! m = Some res →
  usable res p = false →
  (res0 ← resource m; arrayOrEmpty res0 p) st = Result (Throws TypeError) st [].
Proof.
  intros Hres Husable. rewrite run_bind, run_resource, Hres. rsimpl.
  by rewrite run_arrayOrEmpty, Husable.
Qed.

(** C10, as the code has it.  On a registered model the two revisions of
    [notifySubscribers] give the same result - outcome, tracker and
    emitted events - for a create when the generic array has no repeated
    id, for an update when an array without repeated ids is registered for
    the record, and for a delete when the generic array has no repeated
    id, the id of the record names a registered array or no property at
    all (it is not the name of a property of [Object.prototype], on which
    the later revision throws a TypeError), and every specific subscriber
    of the record is in the generic array. *)
Theorem C10_revisions_agree st m op f data res g :
  subscriptionsByResource st !! m = Some res →
  res !! "generic" = Some g →
  match op with
  | op_create => NoDup g
  | op_update => ∃ s, res !! to_key (prop data "id") = Some s ∧ NoDup s
  | op_delete =>
      NoDup g ∧
      (is_Some (res !! to_key (prop data "id")) ∨
       inherited (to_key (prop data "id")) = false) ∧
      ∀ x, x ∈ default [] (res !! to_key (prop data "id")) → x ∈ g
  end →
  notifySubscribers_earlier m op f data st = notifySubscribers m op f data st.
Proof.
  intros Hres Hg Hop.
  unfold notifySubscribers_earlier, notifySubscribers.
  destruct op; unfold includes; simpl.
  - rewrite (run_bind_pure _ _ st g) by (by apply (run_resource_array st m res)).
    rewrite (run_bind_pure _ _ st g) by (by apply (run_resource_array st m res)).
    rewrite (run_bind_pure _ _ st []) by done.
    by rewrite app_nil_r, new_Set_id.
  - destruct Hop as (s & Hs & Hnd).
    rewrite (run_bind_pure _ _ st s) by (by apply (run_resource_array st m res)).
    rewrite (run_bind_pure _ _ st []) by done.
    rewrite (run_bind_pure _ _ st s)
      by (rewrite (run_resource_default st m res), ?Hs;
          [done..|by apply usable_own; rewrite Hs]).
    by rewrite app_nil_l, new_Set_id.
  - destruct Hop as (Hnd & Hread & Hsub).
    rewrite (run_bind_pure _ _ st g) by (by apply (run_resource_array st m res)).
    rewrite (run_bind_pure _ _ st g) by (by apply (run_resource_array st m res)).
    rewrite (run_bind_pure _ _ st (default [] (res !! to_key (prop data "id"))))
      by (apply run_resource_default; [done|];
          destruct Hread; [by apply usable_own | by apply usable_not_inherited]).
    by rewrite new_Set_app_known.
Qed.

Lemma C10_witness :
  subscriptionsByResource with_u1 !! "User" =
    Some (<["u1" := [JNum 1]]> {[ "generic" := [] ]}) ∧
  notifySubscribers_earlier "User" op_update [] user_u1 with_u1 =
  notifySubscribers "User" op_update [] user_u1 with_u1.
Proof.
  split; [vm_compute; reflexivity|].
  apply (C10_revisions_agree with_u1 "User" op_update [] user_u1
           (<["u1" := [JNum 1]]> {[ "generic" := [] ]}) []).
  - vm_compute. reflexivity.
  - vm_compute. reflexivity.
  - exists [JNum 1]. split; [vm_compute; reflexivity|].
    apply NoDup_singleton.
Defined.

(** C10, as stated, fails: with subscription 1 on the user [u1], deleting
    [u1] emits an event in the later revision and none in the earlier one,
    and updating the user [u2], who has no subscriber, throws a TypeError
    in the earlier revision and returns in the later one. *)
Lemma C10_counterexample :
  reachable with_u1 ∧
  emitted (notifySubscribers_earlier "User" op_delete [] user_u1 with_u1) = [] ∧
  emitted (notifySubscribers "User" op_delete [] user_u1 with_u1) =
    [DataChanged op_delete "User" user_u1 [] [JNum 1]] ∧
  outcome_of (notifySubscribers_earlier "User" op_update [] user_u2 with_u1) =
    Throws TypeError ∧
  outcome_of (notifySubscribers "User" op_update [] user_u2 with_u1) = Returns tt.
Proof.
  split_and!; try (by vm_compute).
  apply reachable_call, reachable_messages_and_users.
Qed.

(** ** Supporting facts for the claims above *)

Lemma preserves_forOf_in {A} P (l : list A) (body : A → M unit) :
  (∀ x, x ∈ l → preserves P (body x)) → preserves P (forOf l body).
Proof.
  induction l as [|x l IH]; intros Hb; simpl.
  - apply preserves_ret.
  - apply preserves_bind; [apply Hb, elem_of_cons; by left|].
    intros _. apply IH. intros y Hy. apply Hb, elem_of_cons. by right.
Qed.

Lemma quiet_perModel model : preserves quiet (perModel model).
Proof.
  intros st Hq. unfold perModel. rewrite run_bind.
  assert (subscriptionsByResource (final (forOf (associations model) addAssociation st)) =
          subscriptionsByResource st) as Hsame.
  { apply (preserves_forOf (λ st', subscriptionsByResource st' = subscriptionsByResource st));
      [|done].
    intros a. rewrite addAssociation_registerDepending. apply registerDepending_byResource. }
  destruct (outcome_of (forOf (associations model) addAssociation st)); rsimpl.
  - rewrite run_bind, run_get. rsimpl. rewrite Hsame.
    rewrite run_set_subscriptionsByResource. rsimpl.
    intros m p. unfold lookupArr. rsimpl.
    destruct (decide (name model = m)) as [<-|Hne].
    + rewrite lookup_insert_eq. cbn [mbind option_bind].
      destruct (decide ("generic" = p)) as [<-|Hp].
      * by rewrite lookup_singleton_eq.
      * by rewrite lookup_singleton_ne.
    + rewrite lookup_insert_ne by done. apply Hq.
  - intros m p. unfold lookupArr. rewrite Hsame. apply Hq.
Qed.

Lemma quiet_new models st : new_SequelizeChangeTracker models = Returns st → quiet st.
Proof.
  rewrite constructor_run. intros Hnew.
  assert (quiet (final (forOf models perModel (initial models)))) as Hq.
  { apply preserves_forOf; [apply quiet_perModel|]. intros m p. by unfold lookupArr. }
  destruct (outcome_of (forOf models perModel (initial models))); [|done].
  by injection Hnew as <-.
Qed.

(** With [findSubscriptionIndices] in the place of the missing member,
    [removeSubscription] undoes the entries of [addSubscription], and the
    array [addSubscription] created for the new subscription id stays. *)
Lemma removal_with_findSubscriptionIndices :
  let added := addSubscription generic_on_User messages_and_users in
  let removed :=
    removeSubscription_with (Some findSubscriptionIndices) generic_on_User (final added) in
  outcome_of removed = Returns tt ∧
  lookupArr (final removed) "User" "generic" = [] ∧
  subscriptionsById (final removed) !! "1" = Some [] ∧
  subscriptionsById messages_and_users !! "1" = None.
Proof. split_and!; by vm_compute. Qed.

(** With [findSubscriptionIndices] in the place of the missing member, the
    loop of [removeSubscriptionAllModels] over the array that
    [removeSubscription] splices skips the second of two entries. *)
Lemma live_loop_skips_an_entry :
  let r :=
    removeSubscriptionAllModels_with
      (removeSubscription_with (Some findSubscriptionIndices)) (JNum 1) with_two_generic in
  outcome_of r = Returns true ∧
  subscriptionsById (final r) !! "1" = Some [SubObj "Message" true JUndefined] ∧
  lookupArr (final r) "Message" "generic" = [JNum 1].
Proof. split_and!; by vm_compute. Qed.

(** The loop of [removeSubscriptionAllModels] always comes to its end: the
    fuel of the model is never used up. *)
Lemma removeSubscriptionAllModels_terminates s st :
  outcome_of (removeSubscriptionAllModels s st) ≠ Returns false.
Proof.
  rewrite removeSubscriptionAllModels_run.
  destruct (subscriptionsById st !! to_key s) as [[|]|]; rsimpl; discriminate.
Qed.

(** On every tracker in use [removeSubscriptionAllModels] throws. *)
Lemma removeSubscriptionAllModels_always_throws s st :
  reachable st →
  removeSubscriptionAllModels s st = Result (Throws TypeError) st [].
Proof.
  intros Hwf%reachable_wf. rewrite removeSubscriptionAllModels_run.
  destruct (subscriptionsById st !! to_key s) as [[|]|] eqn:Hs; try done.
  by apply wf_nonempty in Hs.
Qed.

(** The direct subscribers never hold an id twice: the duplicates of a
    delete that is both a generic and a specific event are filtered out. *)
Lemma directSubscribers_NoDup st m op data : NoDup (directSubscribers st m op data).
Proof. apply new_Set_NoDup. Qed.

Lemma no_cascade_no_repeats st m op f data e :
  registered st m →
  dependingModelMap st !! m = Some [] →
  e ∈ emitted (notifySubscribers m op f data st) →
  ∃ ids, e = DataChanged op m data f ids ∧ NoDup ids.
Proof.
  intros Hreg Hm.
  rewrite (notifySubscribers_run st m op f data [])
    by (try done; by intros d ?%elem_of_nil).
  destruct (spreads st m op data); [|by intros ?%elem_of_nil].
  rsimpl.
  unfold cascadeSubscribers. cbn [flat_map]. rewrite app_nil_r.
  pose proof (directSubscribers_NoDup st m op data) as Hnd.
  destruct (directSubscribers st m op data) as [|x ids]; [by intros ?%elem_of_nil|].
  intros ->%list_elem_of_singleton. eauto.
Qed.

(** An id that is the name of a property of [Object.prototype] is read as
    that property: [addSubscription] throws a TypeError for such a
    subscription id or instance id and registers nothing, and the later
    [notifySubscribers] throws a TypeError for an update or a delete of such
    a record, and returns for its creation. *)
Lemma inherited_names_throw :
  addSubscription on_instance_constructor messages_and_users =
    Result (Throws TypeError) messages_and_users [] ∧
  addSubscription generic_as_toString messages_and_users =
    Result (Throws TypeError) messages_and_users [] ∧
  notifySubscribers "User" op_update [] user_constructor messages_and_users =
    Result (Throws TypeError) messages_and_users [] ∧
  notifySubscribers "User" op_delete [] user_constructor messages_and_users =
    Result (Throws TypeError) messages_and_users [] ∧
  notifySubscribers "User" op_create [] user_constructor messages_and_users =
    Result (Returns tt) messages_and_users [].
Proof. split_and!; by vm_compute. Qed.

(** For the deletion of such a record the two revisions differ: the
    earlier one reads the generic array only and notifies its
    subscribers, the later one throws. *)
Lemma revisions_differ_on_inherited_id :
  reachable with_two_generic ∧
  outcome_of (notifySubscribers_earlier "User" op_delete [] user_constructor
                with_two_generic) = Returns tt ∧
  emitted (notifySubscribers_earlier "User" op_delete [] user_constructor
             with_two_generic) =
    [DataChanged op_delete "User" user_constructor [] [JNum 1]] ∧
  outcome_of (notifySubscribers "User" op_delete [] user_constructor with_two_generic) =
    Throws TypeError ∧
  emitted (notifySubscribers "User" op_delete [] user_constructor with_two_generic) = [].
Proof.
  split_and!; try (by vm_compute).
  do 2 apply reachable_call. apply reachable_messages_and_users.
Qed.

(** Without a subscription filed under the key an absent or [null]
    foreign key is coerced to, the cascade step adds nothing. *)
Lemma cascadeContribution_absent st data d :
  prop data (d +:+ "Id") = JUndefined ∨ prop data (d +:+ "Id") = JNull →
  lookupArr st d "undefined" = [] →
  lookupArr st d "null" = [] →
  cascadeContribution st data d = [].
Proof. unfold cascadeContribution. by intros [->| ->]. Qed.

(** ** Agreement of the two registers for ordinary identifiers *)

Lemma plainly_reachable_reachable st : plainly_reachable st → reachable st.
Proof.
  induction 1; [by eapply reachable_new | by apply reachable_call].
Qed.

Lemma entry_characterised a o :
  plain_instance (instanceId a) → plain_entry o →
  (so_modelName o = modelName a ∧ resourceKey o = modelProp (instanceId a)) ↔ o = entry a.
Proof.
  unfold plain_instance, plain_entry, resourceKey, modelProp, entry.
  destruct o as [mo go io]. cbn [so_modelName so_generic so_instanceId].
  intros [Ha|(i & Ha & Hi)] [[-> ->]|(-> & j & -> & Hj)]; rewrite Ha; simpl.
  - split; [by intros [-> _]|by intros [= ->]].
  - split; [by intros [_ ?]|by intros [=]].
  - split; [intros [_ ?]; by subst|by intros [=]].
  - split; [by intros [-> ->]|by intros [= -> ->]].
Qed.

Lemma agree_addSubscription a :
  plain_id (subscriptionId a) → plain_instance (instanceId a) →
  preserves (λ st, wf st ∧ agree st) (addSubscription a).
Proof.
  intros [s0 Hs0] Hinst st [Hwf Hag].
  split; [by apply wf_addSubscription|].
  destruct (decide (modelName a ∈ modelNames st)) as [Hknown|Hunknown];
    [|by rewrite addSubscription_unknown].
  destruct (wf_registered st Hwf _ Hknown) as (res & Hres & Hgen).
  rewrite (addSubscription_run a st res) by done.
  destruct (accepts st a); [|done]. rsimpl.
  rewrite Hs0. cbn [to_key].
  intros s o Ho. unfold lookupArr. rsimpl.
  pose proof (entry_characterised a o Hinst Ho) as Hchar.
  specialize (Hag s o Ho). unfold lookupArr in Hag.
  assert (default [] (res !! modelProp (instanceId a)) =
          default [] (subscriptionsByResource st !! modelName a ≫= λ res, res !! modelProp (instanceId a)))
    as Hparr by (by rewrite Hres).
  destruct (decide (so_modelName o = modelName a)) as [Hm|Hm].
  - rewrite Hm, lookup_insert_eq. cbn [mbind option_bind].
    rewrite Hm, Hres in Hag. cbn [mbind option_bind] in Hag.
    destruct (decide (resourceKey o = modelProp (instanceId a))) as [Hk|Hk].
    + assert (o = entry a) as -> by (by apply Hchar).
      rewrite Hk, lookup_insert_eq. rsimpl. rewrite Hk in Hag.
      destruct (decide (s0 = s)) as [->|Hs].
      * rewrite lookup_insert_eq. rsimpl. rewrite !elem_of_app, !list_elem_of_singleton.
        split; auto.
      * rewrite lookup_insert_ne by done.
        rewrite !elem_of_app, !list_elem_of_singleton.
        rewrite Hag. split; [auto|]. intros [?|[= ?]]; [done|by subst].
    + rewrite (lookup_insert_ne res) by (by intros Heq; apply Hk).
      destruct (decide (s0 = s)) as [->|Hs].
      * rewrite lookup_insert_eq. rsimpl. rewrite elem_of_app, list_elem_of_singleton.
        rewrite Hag. split; [|auto]. intros [?|Heq]; [done|].
        apply Hchar in Heq as [_ ?]. done.
      * by rewrite lookup_insert_ne.
  - rewrite (lookup_insert_ne (subscriptionsByResource st))
      by (by intros Heq; apply Hm).
    destruct (decide (s0 = s)) as [->|Hs].
    + rewrite lookup_insert_eq. rsimpl. rewrite elem_of_app, list_elem_of_singleton.
      rewrite Hag. split; [|auto]. intros [?|Heq]; [done|].
      apply Hchar in Heq as [? _]. done.
    + by rewrite lookup_insert_ne.
Qed.

Lemma agree_addSubscriptionIfRequested m i o :
  plain_options o → plain_instances i →
  preserves (λ st, wf st ∧ agree st) (addSubscriptionIfRequested m i o).
Proof.
  unfold plain_options, addSubscriptionIfRequested. intros Ho Hi.
  destruct i as [|inst|l]; [apply preserves_ret|..];
    (destruct (trackChanges o) as [s|]; [|apply preserves_ret]);
    (destruct (negb (truthy s)); [apply preserves_throw|]);
    apply preserves_forOf_in; intros x Hx; apply agree_addSubscription; try done.
  - apply list_elem_of_singleton in Hx as ->. apply Hi.
  - by apply Hi.
Qed.

Lemma agree_readonly {A} (m : M A) :
  readonly m → preserves (λ st, wf st ∧ agree st) m.
Proof. apply readonly_preserves. Qed.

Lemma agree_new models st :
  new_SequelizeChangeTracker models = Returns st → agree st.
Proof.
  intros Hnew s o _. rewrite (quiet_new models st Hnew).
  pose proof (constructor_spec models) as Hspec. rewrite Hnew in Hspec.
  destruct Hspec as (_ & -> & _). rewrite lookup_empty. simpl.
  split; by intros ?%elem_of_nil.
Qed.

(** As long as subscription ids are strings and instance ids are strings
    other than ['generic'], the two registers agree after every history of
    calls, whether the calls returned or threw. *)
Lemma registers_agree st : plainly_reachable st → wf st ∧ agree st.
Proof.
  induction 1 as [models st Hnew|c st _ IH Hc].
  - split; [by eapply wf_new | by eapply agree_new].
  - destruct c as [a|a|s|a|m op f d| |m i o|m i o|m l o|m i o|m o|m i o|m o];
      cbn [after plain_call] in *.
    + destruct Hc. by apply (agree_addSubscription a).
    + by rewrite readonly_removeSubscription.
    + by rewrite readonly_removeSubscriptionAllModels.
    + by rewrite readonly_findSubscriptionIndices.
    + by rewrite readonly_notifySubscribers.
    + done.
    + destruct Hc. by apply (agree_addSubscriptionIfRequested m i o).
    + destruct Hc. revert st IH. unfold afterCreate.
      apply (preserves_bind (λ st, wf st ∧ agree st));
        [by apply agree_addSubscriptionIfRequested|].
      intros _. apply agree_readonly, readonly_notifySubscribers.
    + destruct Hc as [Ho Hl]. revert st IH. unfold afterBulkCreate.
      apply (preserves_forOf_in (λ st, wf st ∧ agree st)). intros x Hx.
      apply preserves_bind; [apply agree_addSubscriptionIfRequested; [done|by apply Hl]|].
      intros _. apply agree_readonly, readonly_notifySubscribers.
    + destruct Hc. revert st IH. unfold afterUpdate.
      apply (preserves_bind (λ st, wf st ∧ agree st));
        [by apply agree_addSubscriptionIfRequested|].
      intros _. apply agree_readonly, readonly_notifySubscribers.
    + done.
    + unfold afterDestroy. by rewrite readonly_notifySubscribers.
    + done.
Qed.

(** * Further properties of the code *)

(** ** The entries of [subscriptionsById] *)

Lemma shaped_entry a : shaped (entry a).
Proof.
  unfold shaped, entry.
  by destruct (bool_decide_reflect (instanceId a = JUndefined)).
Qed.

Lemma shaped_addSubscription a :
  preserves (λ st, wf st ∧ shaped_register st) (addSubscription a).
Proof.
  intros st [Hwf Hsh]. split; [by apply wf_addSubscription|].
  destruct (decide (modelName a ∈ modelNames st)) as [Hknown|Hunknown];
    [|by rewrite addSubscription_unknown].
  destruct (wf_registered st Hwf _ Hknown) as (res & Hres & Hgen).
  rewrite (addSubscription_run a st res) by done.
  destruct (accepts st a); [|done]. rsimpl.
  intros k l o. rsimpl.
  destruct (decide (to_key (subscriptionId a) = k)) as [<-|Hne].
  - rewrite lookup_insert_eq. intros [= <-] [Ho|Ho]%elem_of_app.
    + destruct (subscriptionsById st !! to_key (subscriptionId a)) eqn:Hl;
        [by eapply Hsh | by apply elem_of_nil in Ho].
    + apply list_elem_of_singleton in Ho as ->. apply shaped_entry.
  - rewrite lookup_insert_ne by done. apply Hsh.
Qed.

Lemma reachable_shaped st : reachable st → wf st ∧ shaped_register st.
Proof.
  induction 1 as [models st Hnew|c st _ IH].
  - split; [by eapply wf_new|].
    pose proof (constructor_spec models) as Hspec. rewrite Hnew in Hspec.
    destruct Hspec as (_ & Hbyid & _). intros k l o. by rewrite Hbyid, lookup_empty.
  - apply (preserves_after (λ st, wf st ∧ shaped_register st));
      [apply shaped_addSubscription | done].
Qed.

Lemma findIndex_none {A} (p : A → bool) l :
  (∀ x, x ∈ l → p x = false) → findIndex p l = -1.
Proof.
  induction l as [|y l IH]; intros Hp; simpl; [done|].
  rewrite (Hp y) by (apply elem_of_cons; by left).
  rewrite IH by (intros x Hx; apply Hp, elem_of_cons; by right).
  by rewrite bool_decide_eq_true_2.
Qed.

Lemma findIndex_neg1 {A} (p : A → bool) l x :
  findIndex p l = -1 → x ∈ l → p x = false.
Proof.
  intros Hnone Hx. destruct (p x) eqn:Hp; [|done].
  by pose proof (findIndex_found p l x Hx Hp).
Qed.

Lemma findIndex_app_last {A} (p : A → bool) l x :
  findIndex p l = -1 → p x = true → findIndex p (l ++ [x]) = Z.of_nat (length l).
Proof.
  induction l as [|y l IH]; simpl; intros Hnone Hp.
  - by rewrite Hp.
  - destruct (p y); [lia|].
    destruct (bool_decide_reflect (findIndex p l = -1)) as [Hl|Hl];
      [|pose proof (findIndex_ge p l); lia].
    rewrite IH by done. rewrite bool_decide_eq_false_2 by lia. lia.
Qed.

Lemma sameSubscription_entry a : sameSubscription (as_added a) (entry a) = true.
Proof.
  unfold sameSubscription, entry, as_added. cbn [modelName generic instanceId].
  destruct (bool_decide_reflect (instanceId a = JUndefined));
    cbn [so_modelName so_generic so_instanceId];
    by rewrite !bool_decide_eq_true_2.
Qed.

Lemma sameSubscription_shaped a o :
  shaped o → sameSubscription (as_added a) o = true → o = entry a.
Proof.
  unfold shaped, sameSubscription, entry, as_added.
  destruct o as [mo go io]. cbn [modelName generic instanceId so_modelName so_generic so_instanceId].
  intros Hsh [Hm Hrest]%andb_prop. apply bool_decide_eq_true_1 in Hm as ->.
  destruct (bool_decide_reflect (instanceId a = JUndefined)) as [Hund|Hund].
  - rewrite Hrest in *. by rewrite Hsh.
  - apply bool_decide_eq_true_1 in Hrest as ->.
    destruct go; [done|done].
Qed.

(** On a tracker in use, [findSubscriptionIndices] finds nothing in
    [subscriptionsById] exactly when the entry is not there. *)
Lemma fresh_iff st a :
  shaped_register st →
  findIndex (sameSubscription (as_added a))
    (default [] (subscriptionsById st !! to_key (subscriptionId a))) = -1 ↔
  entry a ∉ default [] (subscriptionsById st !! to_key (subscriptionId a)).
Proof.
  intros Hsh. split.
  - intros Hnone Hin. pose proof (findIndex_neg1 _ _ _ Hnone Hin) as Hf.
    by rewrite sameSubscription_entry in Hf.
  - intros Hnotin. apply findIndex_none. intros o Ho.
    destruct (sameSubscription (as_added a) o) eqn:Hsame; [|done].
    destruct (subscriptionsById st !! to_key (subscriptionId a)) as [l|] eqn:Hl;
      [|by apply elem_of_nil in Ho].
    apply sameSubscription_shaped in Hsame; [by subst|by eapply Hsh].
Qed.

(** ** [addSubscription] on a tracker in use *)

Lemma addSubscription_returns st a :
  wf st →
  outcome_of (addSubscription a st) = Returns tt →
  ∃ res,
    modelName a ∈ modelNames st ∧
    subscriptionsByResource st !! modelName a = Some res ∧
    findIndex (sameSubscription (as_added a))
      (default [] (subscriptionsById st !! to_key (subscriptionId a))) = -1 ∧
    addSubscription a st =
    Result (Returns tt)
      (Tracker (modelNames st) (dependingModelMap st)
         (<[modelName a :=
              <[modelProp (instanceId a) :=
                  default [] (res !! modelProp (instanceId a)) ++ [subscriptionId a]]> res]>
            (subscriptionsByResource st))
         (<[to_key (subscriptionId a) :=
              default [] (subscriptionsById st !! to_key (subscriptionId a)) ++ [entry a]]>
            (subscriptionsById st)))
      [SubscriptionsChanged (subscriptionId a) (modelName a) (instanceId a)
         (bool_decide (instanceId a = JUndefined))].
Proof.
  intros Hwf Hret.
  destruct (decide (modelName a ∈ modelNames st)) as [Hknown|Hunknown];
    [|by rewrite addSubscription_unknown in Hret].
  destruct (wf_registered st Hwf _ Hknown) as (res & Hres & Hgen).
  exists res. rewrite (addSubscription_run a st res) in * by done.
  destruct (accepts st a) eqn:Hacc; [|cbn [outcome_of] in Hret; done].
  apply andb_true_iff in Hacc as [_ Hnone%bool_decide_eq_true].
  done.
Qed.

Lemma lookupArr_insert st m p arr res (sbi : gmap string (list subObj)) m' p' :
  subscriptionsByResource st !! m = Some res →
  lookupArr (Tracker (modelNames st) (dependingModelMap st)
               (<[m := <[p := arr]> res]> (subscriptionsByResource st)) sbi) m' p' =
  if decide (m' = m ∧ p' = p) then arr else lookupArr st m' p'.
Proof.
  intros Hres. unfold lookupArr. rsimpl.
  destruct (decide (m' = m)) as [->|Hm].
  - rewrite lookup_insert_eq, Hres. cbn [mbind option_bind].
    destruct (decide (p' = p)) as [->|Hp].
    + rewrite lookup_insert_eq. by rewrite decide_True.
    + rewrite lookup_insert_ne by done. rewrite decide_False by (by intros [_ ?]). done.
  - rewrite lookup_insert_ne by done. by rewrite decide_False by (by intros [? _]).
Qed.

(** X1.  On a tracker built by the constructor and used, [addSubscription]
    returns exactly when the model was passed to the constructor, neither
    the subscription id nor the instance id is the name of a property of
    [Object.prototype], and [subscriptionsById] does not hold the entry of
    the tuple yet.  It throws a TypeError exactly when the model is known
    and one of the two ids is such a name, and otherwise
    ['Unknown model: ...'] or ['Already subscribed']; whenever it throws,
    the tracker is as it was and nothing was emitted. *)
Theorem X1_addSubscription_outcome st a :
  reachable st →
  let r := addSubscription a st in
  (outcome_of r = Returns tt ↔
   modelName a ∈ modelNames st ∧
   inherited (to_key (subscriptionId a)) = false ∧
   inherited (modelProp (instanceId a)) = false ∧
   entry a ∉ default [] (subscriptionsById st !! to_key (subscriptionId a))) ∧
  (outcome_of r = Throws TypeError ↔
   modelName a ∈ modelNames st ∧
   (inherited (to_key (subscriptionId a)) = true ∨
    inherited (modelProp (instanceId a)) = true)) ∧
  (∀ e, outcome_of r = Throws e →
        (e = Error ("Unknown model: " +:+ modelName a) ∨ e = Error "Already subscribed" ∨
         e = TypeError) ∧
        final r = st ∧ emitted r = []).
Proof.
  intros Hreach r. subst r.
  destruct (reachable_shaped st Hreach) as [Hwf Hsh].
  destruct (decide (modelName a ∈ modelNames st)) as [Hknown|Hunknown].
  - destruct (wf_registered st Hwf _ Hknown) as (res & Hres & Hgen).
    rewrite (addSubscription_run a st res) by done.
    pose proof (fresh_iff st a Hsh) as Hfresh.
    unfold accepts, refusal, unseen. rewrite indexable_reachable by done.
    destruct (inherited (to_key (subscriptionId a))) eqn:Hi1;
      [|destruct (inherited (modelProp (instanceId a))) eqn:Hi2];
      cbn [negb andb]; rsimpl.
    + split_and!.
      * split; [done|]. by intros (_ & ? & _).
      * split; [auto|done].
      * intros e [= <-]. auto.
    + split_and!.
      * split; [done|]. by intros (_ & _ & ? & _).
      * split; [auto|done].
      * intros e [= <-]. auto.
    + destruct (bool_decide_reflect
        (findIndex (sameSubscription (as_added a))
           (default [] (subscriptionsById st !! to_key (subscriptionId a))) = -1))
        as [Hnone|Hsome]; rsimpl.
      * split_and!; [|split; [done|by intros [_ [?|?]]]|done].
        split; [|done]. intros _. split_and!; [done..|]. by apply Hfresh.
      * split_and!.
        -- split; [done|]. intros (_ & _ & _ & Hnotin). by apply Hfresh in Hnotin.
        -- split; [done|by intros [_ [?|?]]].
        -- intros e [= <-]. auto.
  - rewrite addSubscription_unknown by done. rsimpl. split_and!.
    + split; [done|]. by intros [? _].
    + split; [done|]. by intros [? _].
    + intros e [= <-]. auto.
Qed.

Lemma X1_witness :
  reachable with_u1 ∧
  let r := addSubscription specific_on_u1 with_u1 in
  (outcome_of r = Returns tt ↔
   modelName specific_on_u1 ∈ modelNames with_u1 ∧
   inherited (to_key (subscriptionId specific_on_u1)) = false ∧
   inherited (modelProp (instanceId specific_on_u1)) = false ∧
   entry specific_on_u1 ∉
     default [] (subscriptionsById with_u1 !! to_key (subscriptionId specific_on_u1))) ∧
  (outcome_of r = Throws TypeError ↔
   modelName specific_on_u1 ∈ modelNames with_u1 ∧
   (inherited (to_key (subscriptionId specific_on_u1)) = true ∨
    inherited (modelProp (instanceId specific_on_u1)) = true)) ∧
  (∀ e, outcome_of r = Throws e →
        (e = Error ("Unknown model: " +:+ modelName specific_on_u1) ∨
         e = Error "Already subscribed" ∨ e = TypeError) ∧
        final r = with_u1 ∧ emitted r = []).
Proof.
  assert (reachable with_u1) as Hreach.
  { apply reachable_call, reachable_messages_and_users. }
  split; [exact Hreach|].
  exact (X1_addSubscription_outcome with_u1 specific_on_u1 Hreach).
Defined.

(** X2.  When [addSubscription] returns on a tracker in use, it has emitted
    one ['subscriptions-changed'] event with its arguments and the
    [generic] flag, appended the entry to the array of the subscription id
    and the id to the array of the resource, and left every other array,
    the model names and the map of depending models as they were. *)
Theorem X2_addSubscription_effect st a :
  reachable st →
  outcome_of (addSubscription a st) = Returns tt →
  let r := addSubscription a st in
  emitted r =
    [SubscriptionsChanged (subscriptionId a) (modelName a) (instanceId a)
       (bool_decide (instanceId a = JUndefined))] ∧
  default [] (subscriptionsById (final r) !! to_key (subscriptionId a)) =
    default [] (subscriptionsById st !! to_key (subscriptionId a)) ++ [entry a] ∧
  lookupArr (final r) (modelName a) (modelProp (instanceId a)) =
    lookupArr st (modelName a) (modelProp (instanceId a)) ++ [subscriptionId a] ∧
  (∀ k, k ≠ to_key (subscriptionId a) →
        subscriptionsById (final r) !! k = subscriptionsById st !! k) ∧
  (∀ m p, ¬ (m = modelName a ∧ p = modelProp (instanceId a)) →
          lookupArr (final r) m p = lookupArr st m p) ∧
  modelNames (final r) = modelNames st ∧
  dependingModelMap (final r) = dependingModelMap st.
Proof.
  intros Hwf%reachable_wf Hret r. subst r.
  destruct (addSubscription_returns st a Hwf Hret) as (res & Hknown & Hres & Hnone & ->).
  rsimpl. split_and!; try done.
  - by rewrite lookup_insert_eq.
  - rewrite lookupArr_insert by done. rewrite decide_True by done.
    unfold lookupArr. by rewrite Hres.
  - intros k Hk. by rewrite lookup_insert_ne.
  - intros m p Hmp. rewrite lookupArr_insert by done. by rewrite decide_False.
Qed.

Lemma X2_witness :
  reachable messages_and_users ∧
  outcome_of (addSubscription specific_on_u1 messages_and_users) = Returns tt ∧
  emitted (addSubscription specific_on_u1 messages_and_users) =
    [SubscriptionsChanged (JNum 1) "User" (JStr "u1") false] ∧
  lookupArr (final (addSubscription specific_on_u1 messages_and_users)) "User" "u1" =
    lookupArr messages_and_users "User" "u1" ++ [JNum 1].
Proof.
  assert (reachable messages_and_users) as Hreach
    by exact reachable_messages_and_users.
  assert (outcome_of (addSubscription specific_on_u1 messages_and_users) = Returns tt)
    as Hret by (vm_compute; reflexivity).
  pose proof (X2_addSubscription_effect messages_and_users specific_on_u1 Hreach Hret)
    as (He & _ & Hl & _).
  split; [exact Hreach|]. split; [exact Hret|]. split; [exact He|exact Hl].
Defined.

(** X3.  After [addSubscription] returned on a tracker in use,
    [findSubscriptionIndices] for the same tuple finds the subscription in
    both registers: in [subscriptionsById] at the end of the array, and in
    [subscriptionsByResource] at some index. *)
Theorem X3_find_after_add st a :
  reachable st →
  outcome_of (addSubscription a st) = Returns tt →
  let st' := final (addSubscription a st) in
  ∃ sbrIndex,
    findSubscriptionIndices (as_added a) st' =
      Result
        (Returns
           (Z.of_nat (length (default [] (subscriptionsById st !! to_key (subscriptionId a)))),
            sbrIndex))
        st' [] ∧
    0 ≤ sbrIndex.
Proof.
  intros Hwf%reachable_wf Hret st'. subst st'.
  destruct (addSubscription_returns st a Hwf Hret) as (res & Hknown & Hres & Hnone & ->).
  rsimpl.
  erewrite findSubscriptionIndices_run
    by (cbn [subscriptionsByResource as_added modelName]; apply lookup_insert_eq).
  cbn [as_added subscriptionId modelName instanceId generic subscriptionsById].
  fold (modelProp (instanceId a)).
  rewrite !usable_own by (rewrite lookup_insert_eq; eauto). cbn [andb].
  eexists. split.
  - rewrite lookup_insert_eq. rsimpl.
    fold (as_added a). rewrite findIndex_app_last; [done|done|apply sameSubscription_entry].
  - rewrite lookup_insert_eq. rsimpl.
    pose proof (findIndex_ge (λ id, bool_decide (id = subscriptionId a))
      (default [] (res !! modelProp (instanceId a)) ++ [subscriptionId a])) as Hge.
    assert (findIndex (λ id, bool_decide (id = subscriptionId a))
      (default [] (res !! modelProp (instanceId a)) ++ [subscriptionId a]) ≠ -1) as Hne.
    { apply (findIndex_found _ _ (subscriptionId a)).
      - apply elem_of_app. right. by apply list_elem_of_singleton.
      - by apply bool_decide_eq_true_2. }
    lia.
Qed.

Lemma X3_witness :
  reachable messages_and_users ∧
  outcome_of (addSubscription specific_on_u1 messages_and_users) = Returns tt ∧
  ∃ sbrIndex,
    findSubscriptionIndices (as_added specific_on_u1)
      (final (addSubscription specific_on_u1 messages_and_users)) =
      Result
        (Returns
           (Z.of_nat (length (default []
              (subscriptionsById messages_and_users !! to_key (subscriptionId specific_on_u1)))),
            sbrIndex))
        (final (addSubscription specific_on_u1 messages_and_users)) [] ∧
    0 ≤ sbrIndex.
Proof.
  assert (reachable messages_and_users) as Hreach
    by exact reachable_messages_and_users.
  assert (outcome_of (addSubscription specific_on_u1 messages_and_users) = Returns tt)
    as Hret by (vm_compute; reflexivity).
  split; [exact Hreach|]. split; [exact Hret|].
  exact (X3_find_after_add messages_and_users specific_on_u1 Hreach Hret).
Defined.

(** ** What no call does *)

Lemma keeps_refl st : keeps st st.
Proof. by split. Qed.

Lemma keeps_trans st1 st2 st3 : keeps st1 st2 → keeps st2 st3 → keeps st1 st3.
Proof. intros [H1 H2] [H3 H4]. split; auto. Qed.

Lemma keeps_addSubscription st a : wf st → keeps st (final (addSubscription a st)).
Proof.
  intros Hwf.
  destruct (decide (modelName a ∈ modelNames st)) as [Hknown|Hunknown];
    [|rewrite addSubscription_unknown by done; apply keeps_refl].
  destruct (wf_registered st Hwf _ Hknown) as (res & Hres & Hgen).
  rewrite (addSubscription_run a st res) by done.
  destruct (accepts st a); [|apply keeps_refl]. rsimpl. split.
  - intros k o Ho. rsimpl.
    destruct (decide (to_key (subscriptionId a) = k)) as [<-|Hne].
    + rewrite lookup_insert_eq. rsimpl. apply elem_of_app. by left.
    + by rewrite lookup_insert_ne.
  - intros m p x Hx. rewrite lookupArr_insert by done.
    destruct (decide (m = modelName a ∧ p = modelProp (instanceId a))) as [[-> ->]|]; [|done].
    apply elem_of_app. left. unfold lookupArr in Hx. by rewrite Hres in Hx.
Qed.

(** X4.  No call on a tracker in use takes anything out of either register:
    every entry of [subscriptionsById] and every id in an array of
    [subscriptionsByResource] is still there after the call, whether the
    call returned or threw. *)
Theorem X4_calls_keep_subscriptions st c :
  reachable st → keeps st (after c st).
Proof.
  intros Hwf%reachable_wf.
  apply (preserves_after (λ st', wf st' ∧ keeps st st') c st); [|by split; [|apply keeps_refl]].
  intros a st' [Hwf' Hkeeps]. split; [by apply wf_addSubscription|].
  eapply keeps_trans; [done|]. by apply keeps_addSubscription.
Qed.

Lemma X4_witness :
  reachable with_u1 ∧
  keeps with_u1 (after (call_removeSubscriptionAllModels (JNum 1)) with_u1).
Proof.
  assert (reachable with_u1) as Hreach
    by (apply reachable_call, reachable_messages_and_users).
  split; [exact Hreach|].
  exact (X4_calls_keep_subscriptions with_u1
           (call_removeSubscriptionAllModels (JNum 1)) Hreach).
Defined.

(** X5.  No call on a tracker in use changes the model names or the map of
    depending models: they stay as the constructor built them. *)
Theorem X5_calls_keep_the_graph st c :
  reachable st →
  modelNames (after c st) = modelNames st ∧
  dependingModelMap (after c st) = dependingModelMap st.
Proof.
  intros Hwf%reachable_wf.
  apply (preserves_after
    (λ st', wf st' ∧ modelNames st' = modelNames st ∧
            dependingModelMap st' = dependingModelMap st) c st); [|done].
  intros a st' (Hwf' & Hn & Hd). split; [by apply wf_addSubscription|].
  destruct (decide (modelName a ∈ modelNames st')) as [Hknown|Hunknown];
    [|by rewrite addSubscription_unknown].
  destruct (wf_registered st' Hwf' _ Hknown) as (res & Hres & Hgen).
  rewrite (addSubscription_run a st' res) by done.
  by destruct (accepts st' a).
Qed.

Lemma X5_witness :
  reachable messages_and_users ∧
  modelNames (after (call_addSubscription specific_on_u1) messages_and_users) =
    modelNames messages_and_users ∧
  dependingModelMap (after (call_addSubscription specific_on_u1) messages_and_users) =
    dependingModelMap messages_and_users.
Proof.
  split; [exact reachable_messages_and_users|].
  exact (X5_calls_keep_the_graph messages_and_users (call_addSubscription specific_on_u1)
           reachable_messages_and_users).
Defined.

(** X6.  On a tracker in use [removeSubscription] and
    [removeSubscriptionAllModels] throw a TypeError for every argument, a
    registered subscription or not, and leave the tracker as it was. *)
Theorem X6_removal_always_throws st a s :
  reachable st →
  removeSubscription a st = Result (Throws TypeError) st [] ∧
  removeSubscriptionAllModels s st = Result (Throws TypeError) st [].
Proof.
  intros Hwf%reachable_wf. split; [apply removeSubscription_run|].
  rewrite removeSubscriptionAllModels_run.
  destruct (subscriptionsById st !! to_key s) as [[|]|] eqn:Hs; try done.
  by apply wf_nonempty in Hs.
Qed.

Lemma X6_witness :
  reachable with_u1 ∧
  removeSubscription specific_on_u1 with_u1 = Result (Throws TypeError) with_u1 [] ∧
  removeSubscriptionAllModels (JNum 1) with_u1 = Result (Throws TypeError) with_u1 [].
Proof.
  assert (reachable with_u1) as Hreach
    by (apply reachable_call, reachable_messages_and_users).
  split; [exact Hreach|].
  exact (X6_removal_always_throws with_u1 specific_on_u1 (JNum 1) Hreach).
Defined.

(** ** [notifySubscribers] on any tracker *)

Lemma cascade_cases deps data ids st :
  cascade deps data ids st = Result (Throws TypeError) st [] ∨
  cascade deps data ids st =
    Result (Returns (ids ++ cascadeSubscribers st deps data)) st [].
Proof.
  revert ids. induction deps as [|d deps IH]; intros ids; cbn [cascade].
  - right. unfold cascadeSubscribers. cbn [flat_map]. by rewrite app_nil_r.
  - rewrite run_bind, run_resource.
    destruct (subscriptionsByResource st !! d) as [res|] eqn:Hres; rsimpl; [|by left].
    set (ids' := match res !! to_key (prop data (d +:+ "Id")) with
                 | Some arr => if bool_decide (0 < length arr)%nat then ids ++ arr else ids
                 | None => ids
                 end).
    destruct (IH ids') as [->| ->]; rsimpl; [by left|]. right.
    unfold cascadeSubscribers. cbn [flat_map].
    unfold cascadeContribution at 2, lookupArr. rewrite Hres. cbn [mbind option_bind].
    subst ids'. destruct (res !! to_key (prop data (d +:+ "Id"))) as [arr|]; rsimpl.
    + destruct arr as [|x arr].
      * by rewrite bool_decide_eq_false_2 by (simpl; lia).
      * rewrite bool_decide_eq_true_2 by (simpl; lia). by rewrite <- app_assoc.
    + done.
Qed.

Lemma cascadeAndEmit_cases st m op f data ids :
  cascadeAndEmit m op f data ids st = Result (Throws TypeError) st [] ∨
  ∃ deps,
    dependingModelMap st !! m = Some deps ∧
    cascadeAndEmit m op f data ids st =
      Result (Returns tt) st
        (match ids ++ cascadeSubscribers st deps data with
         | [] => []
         | all => [DataChanged op m data f all]
         end).
Proof.
  unfold cascadeAndEmit. rewrite run_bind, run_get. rsimpl.
  destruct (dependingModelMap st !! m) as [deps|] eqn:Hm; [|by left].
  rewrite run_bind.
  destruct (cascade_cases deps data ids st) as [->| ->]; rsimpl; [by left|].
  right. exists deps. split; [done|].
  destruct (ids ++ cascadeSubscribers st deps data) as [|x all].
  - by rewrite bool_decide_eq_false_2 by (simpl; lia).
  - by rewrite bool_decide_eq_true_2 by (simpl; lia).
Qed.

Lemma notifySubscribers_split st m op f data :
  notifySubscribers m op f data st = Result (Throws TypeError) st [] ∨
  notifySubscribers m op f data st =
    cascadeAndEmit m op f data (directSubscribers st m op data) st.
Proof.
  unfold notifySubscribers, directSubscribers, lookupArr.
  destruct (subscriptionsByResource st !! m) as [res|] eqn:Hres; cbn [mbind option_bind].
  - destruct (includes genericOperations op) eqn:Hgen.
    + destruct (res !! "generic") as [g|] eqn:Hg.
      * rewrite (run_bind_pure _ _ st g) by (by apply (run_resource_array st m res)).
        destruct (includes specificOperations op).
        -- destruct (usable res (to_key (prop data "id"))) eqn:Husable.
           ++ right.
              by rewrite (run_bind_pure _ _ st (default [] (res !! to_key (prop data "id"))))
                by (by apply run_resource_default).
           ++ left. by rewrite run_bind, (run_resource_inherited st m res).
        -- right. by rewrite (run_bind_pure _ _ st []).
      * left. rewrite run_bind, run_bind, run_resource, Hres. rsimpl. by rewrite Hg.
    + rewrite (run_bind_pure _ _ st []) by done.
      destruct (includes specificOperations op).
      * destruct (usable res (to_key (prop data "id"))) eqn:Husable.
        -- right.
           by rewrite (run_bind_pure _ _ st (default [] (res !! to_key (prop data "id"))))
             by (by apply run_resource_default).
        -- left. by rewrite run_bind, (run_resource_inherited st m res).
      * right. by rewrite (run_bind_pure _ _ st []).
  - destruct op; unfold includes; simpl.
    + left. by rewrite run_bind, run_bind, run_resource, Hres.
    + left. rewrite (run_bind_pure _ _ st []) by done.
      by rewrite run_bind, run_bind, run_resource, Hres.
    + left. by rewrite run_bind, run_bind, run_resource, Hres.
Qed.

Lemma notifySubscribers_cases st m op f data :
  notifySubscribers m op f data st = Result (Throws TypeError) st [] ∨
  ∃ deps,
    dependingModelMap st !! m = Some deps ∧
    notifySubscribers m op f data st =
      Result (Returns tt) st
        (match directSubscribers st m op data ++ cascadeSubscribers st deps data with
         | [] => []
         | all => [DataChanged op m data f all]
         end).
Proof.
  destruct (notifySubscribers_split st m op f data) as [->| ->]; [by left|].
  apply cascadeAndEmit_cases.
Qed.

(** X7.  Whatever tracker and arguments [notifySubscribers] is given, it
    leaves the tracker as it was, and it either returns, having emitted
    nothing or exactly one ['data-changed'] event that carries the given
    operation, model, record data and changed fields and a non-empty list
    of ids, or throws a TypeError, having emitted nothing. *)
Theorem X7_notifySubscribers_shape st m op f data :
  let r := notifySubscribers m op f data st in
  final r = st ∧
  ((outcome_of r = Returns tt ∧
    (emitted r = [] ∨ ∃ ids, ids ≠ [] ∧ emitted r = [DataChanged op m data f ids])) ∨
   (outcome_of r = Throws TypeError ∧ emitted r = [])).
Proof.
  intros r. subst r.
  destruct (notifySubscribers_cases st m op f data) as [->|(deps & _ & ->)]; rsimpl.
  - split; [done|]. by right.
  - split; [done|]. left. split; [done|].
    destruct (directSubscribers st m op data ++ cascadeSubscribers st deps data)
      as [|x all]; [by left|]. right. by exists (x :: all).
Qed.

Lemma elem_of_directSubscribers st m op data x :
  x ∈ directSubscribers st m op data ↔
  (op ∈ genericOperations ∧ x ∈ lookupArr st m "generic") ∨
  (op ∈ specificOperations ∧ x ∈ lookupArr st m (to_key (prop data "id"))).
Proof.
  unfold directSubscribers, new_Set, includes. rewrite Set_add_spec, elem_of_app.
  destruct (bool_decide_reflect (op ∈ genericOperations)) as [Hg|Hg];
    destruct (bool_decide_reflect (op ∈ specificOperations)) as [Hs|Hs];
    rewrite ?elem_of_nil; tauto.
Qed.

Lemma elem_of_cascadeSubscribers st deps data x :
  x ∈ cascadeSubscribers st deps data ↔
  ∃ d, d ∈ deps ∧ x ∈ lookupArr st d (to_key (prop data (d +:+ "Id"))).
Proof.
  unfold cascadeSubscribers, cascadeContribution.
  induction deps as [|d deps IH]; cbn [flat_map].
  - rewrite elem_of_nil. split; [done|]. by intros (d & ?%elem_of_nil & _).
  - rewrite elem_of_app, IH. split.
    + intros [Hx|(d' & Hd' & Hx)].
      * exists d. split; [apply elem_of_cons; by left|done].
      * exists d'. split; [apply elem_of_cons; by right|done].
    + intros (d' & [->|Hd']%elem_of_cons & Hx); [by left|]. right. by exists d'.
Qed.

Lemma notified_by_the_event op m data f (ids : list jsval) x :
  (∃ e, e ∈ match ids with
             | [] => []
             | y :: l => [DataChanged op m data f (y :: l)]
             end ∧
        x ∈ notified e) ↔ x ∈ ids.
Proof.
  destruct ids as [|y ids].
  - split; [by intros (e & ?%elem_of_nil & _)|by intros ?%elem_of_nil].
  - split.
    + by intros (e & ->%list_elem_of_singleton & Hx).
    + intros Hx. eexists. split; [by apply list_elem_of_singleton|done].
Qed.

(** X8.  On a tracker in use, for a model and depending models passed to
    the constructor, and - when the operation is an update or a delete - a
    record whose id is not the name of a property of [Object.prototype],
    an id is in the event [notifySubscribers] emits exactly when it is a
    generic subscriber of the model and the operation is a create or
    delete, or a subscriber of the record (by its [id]) and the operation
    is an update or delete, or a subscriber of the instance of a depending
    model that the record's foreign key [<model>Id] names. *)
Theorem X8_notified_exactly st m op f data deps x :
  reachable st →
  m ∈ modelNames st →
  dependingModelMap st !! m = Some deps →
  (∀ d, d ∈ deps → d ∈ modelNames st) →
  (op ∈ specificOperations → inherited (to_key (prop data "id")) = false) →
  (∃ e, e ∈ emitted (notifySubscribers m op f data st) ∧ x ∈ notified e) ↔
  (op ∈ genericOperations ∧ x ∈ lookupArr st m "generic") ∨
  (op ∈ specificOperations ∧ x ∈ lookupArr st m (to_key (prop data "id"))) ∨
  (∃ d, d ∈ deps ∧ x ∈ lookupArr st d (to_key (prop data (d +:+ "Id")))).
Proof.
  intros Hreach Hm Hdeps Hknown Hid. pose proof (reachable_wf st Hreach) as Hwf.
  rewrite (notifySubscribers_run st m op f data deps).
  - rewrite spreads_reachable by done.
    assert (negb (includes specificOperations op) ||
            negb (inherited (to_key (prop data "id"))) = true) as ->.
    { unfold includes.
      destruct (bool_decide_reflect (op ∈ specificOperations)) as [Hop|Hop]; [|done].
      by rewrite (Hid Hop). }
    cbn [emitted].
    etrans; [apply notified_by_the_event|].
    rewrite elem_of_app, elem_of_directSubscribers, elem_of_cascadeSubscribers. tauto.
  - by apply wf_registered.
  - done.
  - intros d Hd. destruct (wf_registered st Hwf d (Hknown d Hd)) as (res & -> & _).
    by eexists.
Qed.

Lemma X8_witness :
  reachable with_u1 ∧
  ((∃ e, e ∈ emitted (notifySubscribers "Message" op_create [] message_m1 with_u1) ∧
         JNum 1 ∈ notified e) ↔
   (op_create ∈ genericOperations ∧ JNum 1 ∈ lookupArr with_u1 "Message" "generic") ∨
   (op_create ∈ specificOperations ∧
    JNum 1 ∈ lookupArr with_u1 "Message" (to_key (prop message_m1 "id"))) ∨
   (∃ d, d ∈ ["User"] ∧
         JNum 1 ∈ lookupArr with_u1 d (to_key (prop message_m1 (d +:+ "Id"))))).
Proof.
  assert (reachable with_u1) as Hreach
    by (apply reachable_call, reachable_messages_and_users).
  split; [exact Hreach|].
  apply (X8_notified_exactly with_u1 "Message" op_create [] message_m1 ["User"] (JNum 1) Hreach).
  - apply (bool_decide_unpack _). vm_compute. exact I.
  - vm_compute. reflexivity.
  - intros d Hd. apply list_elem_of_singleton in Hd. rewrite Hd.
    apply (bool_decide_unpack _). vm_compute. exact I.
  - intros _. vm_compute. reflexivity.
Defined.

(** X9.  A tracker the constructor has just built has no subscriber:
    [notifySubscribers] emits nothing on it, whatever it is given. *)
Theorem X9_new_tracker_is_silent models st m op f data :
  new_SequelizeChangeTracker models = Returns st →
  emitted (notifySubscribers m op f data st) = [].
Proof.
  intros Hq%quiet_new.
  destruct (notifySubscribers_cases st m op f data) as [->|(deps & _ & ->)]; [done|].
  rsimpl.
  assert (directSubscribers st m op data = []) as ->.
  { unfold directSubscribers. rewrite !Hq. by do 2 destruct (includes _ _). }
  assert (cascadeSubscribers st deps data = []) as ->; [|done].
  unfold cascadeSubscribers, cascadeContribution.
  induction deps as [|d deps IH]; cbn [flat_map]; [done|]. by rewrite Hq, IH.
Qed.

Lemma X9_witness :
  new_SequelizeChangeTracker [Message; User] = Returns messages_and_users ∧
  emitted (notifySubscribers "Message" op_delete [] message_m1 messages_and_users) = [].
Proof.
  split; [exact new_messages_and_users|].
  exact (X9_new_tracker_is_silent [Message; User] messages_and_users "Message" op_delete []
           message_m1 new_messages_and_users).
Defined.

(** ** The registers of a new tracker *)

(** X10.  When the constructor returns, [modelNames] holds the names of the
    models in the order given, [subscriptionsById] is empty, and
    [subscriptionsByResource] has exactly one object per model name, each
    with an empty ['generic'] array and nothing else. *)
Theorem X10_new_tracker_registers models st :
  new_SequelizeChangeTracker models = Returns st →
  modelNames st = map name models ∧
  subscriptionsById st = ∅ ∧
  ∀ k, subscriptionsByResource st !! k =
       if bool_decide (k ∈ map name models) then Some {[ "generic" := [] ]} else None.
Proof.
  intros Hnew. pose proof (constructor_spec models) as Hspec. rewrite Hnew in Hspec.
  destruct Hspec as (Hnames & Hbyid & _). split; [done|]. split; [done|].
  intros k. rewrite constructor_run in Hnew.
  destruct (outcome_of (forOf models perModel (initial models))) as [[]|] eqn:Ho; [|done].
  injection Hnew as <-. by rewrite model_loop_byResource.
Qed.

Lemma X10_witness :
  new_SequelizeChangeTracker [Message; User] = Returns messages_and_users ∧
  modelNames messages_and_users = map name [Message; User] ∧
  subscriptionsById messages_and_users = ∅ ∧
  ∀ k, subscriptionsByResource messages_and_users !! k =
       if bool_decide (k ∈ map name [Message; User]) then Some {[ "generic" := [] ]}
       else None.
Proof.
  split; [exact new_messages_and_users|].
  exact (X10_new_tracker_registers [Message; User] messages_and_users
           new_messages_and_users).
Defined.

(** ** The tracked read path *)

Lemma readonly_forOf {A} (l : list A) (body : A → M unit) :
  (∀ x, readonly (body x)) → readonly (forOf l body).
Proof.
  intros Hb. induction l as [|x l IH]; cbn [forOf]; [apply readonly_ret|].
  apply readonly_bind; [apply Hb | intros _; apply IH].
Qed.

Lemma addSubscriptionIfRequested_not_requested m i o st :
  trackChanges o = None →
  addSubscriptionIfRequested m i o st = Result (Returns tt) st [].
Proof. unfold addSubscriptionIfRequested. intros ->. by destruct i. Qed.


(** X11.  Registration by a hook is opt-in: without [options.trackChanges]
    the hooks after a find, a create, a bulk create and an update leave
    the tracker as it was, and the find hook emits nothing; the hook after
    a destroy never registers anything, whatever the options. *)
Theorem X11_hooks_without_trackChanges st m i inst l o o' :
  trackChanges o = None →
  afterFind m i o st = Result (Returns tt) st [] ∧
  final (afterCreate m inst o st) = st ∧
  final (afterBulkCreate m l o st) = st ∧
  final (afterUpdate m inst o st) = st ∧
  final (afterDestroy m inst o' st) = st.
Proof.
  intros Hno.
  assert (∀ i', readonly (addSubscriptionIfRequested m i' o)) as Hreq
    by (intros i' st'; by rewrite addSubscriptionIfRequested_not_requested).
  split_and!.
  - by apply addSubscriptionIfRequested_not_requested.
  - apply readonly_bind; [apply Hreq|intros; apply readonly_notifySubscribers].
  - apply readonly_forOf. intros x.
    apply readonly_bind; [apply Hreq|intros; apply readonly_notifySubscribers].
  - apply readonly_bind; [apply Hreq|intros; apply readonly_notifySubscribers].
  - apply readonly_notifySubscribers.
Qed.

Lemma X11_witness :
  trackChanges (Options None []) = None ∧
  afterFind "User" (OneInstance (Instance_ "User" (JStr "u1") user_u1)) (Options None [])
    with_u1 = Result (Returns tt) with_u1 [].
Proof.
  split; [reflexivity|].
  apply (X11_hooks_without_trackChanges with_u1 "User"
           (OneInstance (Instance_ "User" (JStr "u1") user_u1))
           (Instance_ "User" (JStr "u1") user_u1) [] (Options None []) (Options None [])).
  reflexivity.
Defined.

(** X12.  When [options.trackChanges] is given for an instance but its
    [subscriptionId] is missing or falsy ([undefined], [null], [0], the
    empty string), the hooks after a find, a create and an update throw
    ['Missing subscription id'] before anything is registered or emitted:
    a tracked create with such an id notifies nobody. *)
Theorem X12_missing_subscription_id st m inst o s :
  trackChanges o = Some s →
  truthy s = false →
  afterFind m (OneInstance inst) o st =
    Result (Throws (Error "Missing subscription id")) st [] ∧
  afterCreate m inst o st = Result (Throws (Error "Missing subscription id")) st [] ∧
  afterUpdate m inst o st = Result (Throws (Error "Missing subscription id")) st [].
Proof.
  intros Hs Hfalsy.
  assert (addSubscriptionIfRequested m (OneInstance inst) o st =
          Result (Throws (Error "Missing subscription id")) st []) as Hreq.
  { unfold addSubscriptionIfRequested. by rewrite Hs, Hfalsy. }
  split_and!; [done|..]; unfold afterCreate, afterUpdate; by rewrite run_bind, Hreq.
Qed.

Lemma X12_witness :
  trackChanges (Options (Some (JNum 0)) []) = Some (JNum 0) ∧
  truthy (JNum 0) = false ∧
  afterCreate "User" (Instance_ "User" (JStr "u1") user_u1) (Options (Some (JNum 0)) [])
    with_both = Result (Throws (Error "Missing subscription id")) with_both [].
Proof.
  split; [reflexivity|]. split; [reflexivity|].
  apply (X12_missing_subscription_id with_both "User"
           (Instance_ "User" (JStr "u1") user_u1) (Options (Some (JNum 0)) []) (JNum 0));
    reflexivity.
Defined.












(** ** [findSubscriptionIndices] and ordinary identifiers *)

Lemma findIndex_eq_none (s : jsval) l :
  findIndex (λ id, bool_decide (id = s)) l = -1 ↔ s ∉ l.
Proof.
  split.
  - intros Hnone Hin. pose proof (findIndex_neg1 _ _ _ Hnone Hin) as Hf.
    cbv beta in Hf. by rewrite bool_decide_eq_true_2 in Hf.
  - intros Hnotin. apply findIndex_none. intros x Hx.
    apply bool_decide_eq_false_2. by intros ->.
Qed.

(** X16.  On a tracker used with string subscription ids and string
    instance ids other than ['generic'] only, [findSubscriptionIndices]
    for such a tuple on a model passed to the constructor, with ids that
    are not names of properties of [Object.prototype], returns, and it
    finds the subscription in [subscriptionsById] exactly when it finds it
    in [subscriptionsByResource]: the two indices are both [-1] or
    neither. *)
Theorem X16_indices_agree st a :
  plainly_reachable st →
  plain_id (subscriptionId a) →
  plain_instance (instanceId a) →
  inherited (to_key (subscriptionId a)) = false →
  inherited (modelProp (instanceId a)) = false →
  modelName a ∈ modelNames st →
  ∃ sbiIndex sbrIndex,
    findSubscriptionIndices (as_added a) st = Result (Returns (sbiIndex, sbrIndex)) st [] ∧
    (sbiIndex = -1 ↔ sbrIndex = -1).
Proof.
  intros Hplain [s0 Hs0] Hinst Hsid Hiid Hknown.
  destruct (registers_agree st Hplain) as [Hwf Hag].
  destruct (reachable_shaped st (plainly_reachable_reachable st Hplain)) as [_ Hsh].
  destruct (wf_registered st Hwf _ Hknown) as (res & Hres & Hgen).
  rewrite (findSubscriptionIndices_run (as_added a) st res) by done.
  cbn [as_added subscriptionId modelName instanceId generic].
  fold (as_added a). fold (modelProp (instanceId a)).
  rewrite !usable_not_inherited by done. cbn [andb].
  do 2 eexists. split; [done|].
  rewrite fresh_iff by done. rewrite findIndex_eq_none.
  assert (plain_entry (entry a)) as Hpe.
  { unfold plain_entry, entry. destruct Hinst as [->|(i & -> & Hi)]; simpl; [by left|].
    right. split; [done|]. by exists i. }
  assert (resourceKey (entry a) = modelProp (instanceId a)) as Hkey.
  { unfold resourceKey, entry, modelProp. by destruct (bool_decide _). }
  assert (so_modelName (entry a) = modelName a) as Hname.
  { unfold entry. by destruct (bool_decide _). }
  pose proof (Hag s0 (entry a) Hpe) as Hiff.
  rewrite Hkey, Hname in Hiff. unfold lookupArr in Hiff. rewrite Hres in Hiff.
  cbn [mbind option_bind] in Hiff. rewrite Hs0. cbn [to_key]. by rewrite Hiff.
Qed.

Lemma X16_witness :
  plainly_reachable messages_and_users ∧
  ∃ sbiIndex sbrIndex,
    findSubscriptionIndices
      (as_added (SubscriptionObject (JStr "s1") "User" (JStr "u1") false))
      messages_and_users =
      Result (Returns (sbiIndex, sbrIndex)) messages_and_users [] ∧
    (sbiIndex = -1 ↔ sbrIndex = -1).
Proof.
  assert (plainly_reachable messages_and_users) as Hplain
    by (apply (plainly_new [Message; User]); exact new_messages_and_users).
  split; [exact Hplain|].
  apply (X16_indices_agree messages_and_users
           (SubscriptionObject (JStr "s1") "User" (JStr "u1") false) Hplain).
  - exists "s1". reflexivity.
  - right. exists "u1". split; [reflexivity|discriminate].
  - reflexivity.
  - reflexivity.
  - apply (bool_decide_unpack _). vm_compute. exact I.
Defined.

(** ** The earlier revision of [notifySubscribers] *)

Lemma notifySubscribers_earlier_generic st m op f data res g :
  op ∈ genericOperations →
  subscriptionsByResource st !! m = Some res →
  res !! "generic" = Some g →
  notifySubscribers_earlier m op f data st = cascadeAndEmit m op f data g st.
Proof.
  intros Hop Hres Hg. unfold notifySubscribers_earlier.
  apply run_bind_pure. rewrite run_bind, run_resource, Hres. rsimpl.
  unfold includes. rewrite bool_decide_eq_true_2 by done. by rewrite Hg.
Qed.

(** X17.  The earlier revision of [notifySubscribers], on a tracker in use
    and for a model and depending models passed to the constructor: for a
    create or a delete an id is in the emitted event exactly when it is a
    generic subscriber of the model or a cascaded subscriber - the
    subscribers of the deleted record itself are not notified; for an
    update of a record that no array is registered for, it throws a
    TypeError and emits nothing. *)
Theorem X17_earlier_revision st m op f data deps x :
  reachable st →
  m ∈ modelNames st →
  dependingModelMap st !! m = Some deps →
  (∀ d, d ∈ deps → d ∈ modelNames st) →
  (op ∈ genericOperations →
   ((∃ e, e ∈ emitted (notifySubscribers_earlier m op f data st) ∧ x ∈ notified e) ↔
    x ∈ lookupArr st m "generic" ∨
    ∃ d, d ∈ deps ∧ x ∈ lookupArr st d (to_key (prop data (d +:+ "Id"))))) ∧
  (op = op_update →
   (∀ res, subscriptionsByResource st !! m = Some res →
           res !! to_key (prop data "id") = None →
           notifySubscribers_earlier m op f data st = Result (Throws TypeError) st [])).
Proof.
  intros Hwf%reachable_wf Hm Hdeps Hknown.
  destruct (wf_registered st Hwf _ Hm) as (res & Hres & g & Hg).
  split.
  - intros Hop. rewrite (notifySubscribers_earlier_generic st m op f data res g) by done.
    rewrite (cascadeAndEmit_run st m op f data g deps); cbn [emitted].
    + etrans; [apply notified_by_the_event|].
      rewrite elem_of_app, elem_of_cascadeSubscribers.
      assert (lookupArr st m "generic" = g) as ->; [|done].
      unfold lookupArr. rewrite Hres. cbn [mbind option_bind]. by rewrite Hg.
    + done.
    + intros d Hd. destruct (wf_registered st Hwf d (Hknown d Hd)) as (res' & -> & _).
      by eexists.
  - intros -> res' Hres' Hnone. unfold notifySubscribers_earlier.
    rewrite run_bind, run_bind, run_resource, Hres'. rsimpl.
    unfold includes. rewrite bool_decide_eq_false_2.
    + by rewrite Hnone.
    + intros Hin. apply elem_of_cons in Hin as [?|Hin]; [done|].
      by apply list_elem_of_singleton in Hin.
Qed.

Lemma X17_witness :
  reachable with_u1 ∧
  notifySubscribers_earlier "User" op_update [] user_u2 with_u1 =
    Result (Throws TypeError) with_u1 [].
Proof.
  assert (reachable with_u1) as Hreach
    by (apply reachable_call, reachable_messages_and_users).
  split; [exact Hreach|].
  apply (proj2 (X17_earlier_revision with_u1 "User" op_update [] user_u2 [] JUndefined Hreach
           ltac:(apply (bool_decide_unpack _); vm_compute; exact I)
           ltac:(vm_compute; reflexivity)
           ltac:(intros d Hd; inversion Hd))
         eq_refl (<["u1" := [JNum 1]]> {[ "generic" := [] ]})).
  - vm_compute. reflexivity.
  - vm_compute. reflexivity.
Defined.

(** ** Bulk create *)

(** X18.  A bulk create without [options.trackChanges], on a tracker in
    use and for a model and depending models passed to the constructor,
    notifies record by record: the hook returns, leaves the tracker as it
    was, and emits what [notifySubscribers] emits for a create of each
    record, in the order of the records. *)
Theorem X18_bulk_create_notifies_each st m l o deps :
  reachable st →
  trackChanges o = None →
  m ∈ modelNames st →
  dependingModelMap st !! m = Some deps →
  (∀ d, d ∈ deps → d ∈ modelNames st) →
  afterBulkCreate m l o st =
    Result (Returns tt) st
      (flat_map (λ inst, emitted (notifySubscribers m op_create (fields o)
                                    (inst_dataValues inst) st)) l).
Proof.
  intros Hwf%reachable_wf Hno Hm Hdeps Hknown. unfold afterBulkCreate.
  assert (∀ data, ∃ evs, notifySubscribers m op_create (fields o) data st =
                         Result (Returns tt) st evs) as Hnot.
  { intros data. eexists. apply (notifySubscribers_run st m op_create (fields o) data deps).
    - by apply wf_registered.
    - done.
    - intros d Hd. destruct (wf_registered st Hwf d (Hknown d Hd)) as (res & -> & _).
      by eexists. }
  induction l as [|inst l IH]; cbn [forOf flat_map]; [done|].
  rewrite run_bind, run_bind, addSubscriptionIfRequested_not_requested by done. rsimpl.
  destruct (Hnot (inst_dataValues inst)) as [evs ->]. rsimpl. by rewrite IH.
Qed.

Lemma X18_witness :
  reachable with_both ∧
  afterBulkCreate "Message" [Instance_ "Message" (JStr "m1") message_m1] (Options None [])
    with_both =
    Result (Returns tt) with_both
      (flat_map (λ inst, emitted (notifySubscribers "Message" op_create
                                    (fields (Options None [])) (inst_dataValues inst)
                                    with_both))
         [Instance_ "Message" (JStr "m1") message_m1]).
Proof.
  assert (reachable with_both) as Hreach
    by (apply reachable_call, reachable_call, reachable_messages_and_users).
  split; [exact Hreach|].
  apply (X18_bulk_create_notifies_each with_both "Message"
           [Instance_ "Message" (JStr "m1") message_m1] (Options None []) ["User"] Hreach).
  - reflexivity.
  - apply (bool_decide_unpack _). vm_compute. exact I.
  - vm_compute. reflexivity.
  - intros d Hd. apply list_elem_of_singleton in Hd. rewrite Hd.
    apply (bool_decide_unpack _). vm_compute. exact I.
Defined.

(** ** The lists of the map of depending models *)

Lemma referredBy_snoc k seen a :
  referredBy k (seen ++ [a]) =
  referredBy k seen ++ (if decide (listOwner a = k) then [dependentModel a] else []).
Proof.
  unfold referredBy. rewrite filter_app, map_app. f_equal.
  rewrite filter_cons, filter_nil. by destruct (decide (listOwner a = k)).
Qed.

Lemma firsts_snoc l x :
  firsts (l ++ [x]) = if includes (firsts l) x then firsts l else firsts l ++ [x].
Proof. unfold firsts. by rewrite foldl_app. Qed.

Lemma collected_registerDepending names seen a st :
  collected names seen st →
  outcome_of (registerDepending (listOwner a) (dependentModel a) st) = Returns tt →
  collected names (seen ++ [a]) (final (registerDepending (listOwner a) (dependentModel a) st)).
Proof.
  intros Hc. rewrite registerDepending_run.
  destruct (dependingModelMap st !! listOwner a) as [l|] eqn:Hl; [|done]. rsimpl.
  intros _ k. rewrite referredBy_snoc. pose proof (Hc k) as Hk.
  destruct (decide (listOwner a = k)) as [<-|Hne].
  - rewrite Hl in Hk. rewrite firsts_snoc.
    destruct (bool_decide (listOwner a ∈ names)); [|done]. injection Hk as ->.
    destruct (includes (firsts (referredBy (listOwner a) seen)) (dependentModel a)).
    + done.
    + rsimpl. by rewrite lookup_insert_eq.
  - rewrite app_nil_r. destruct (includes l (dependentModel a)); [done|].
    rsimpl. by rewrite lookup_insert_ne.
Qed.

Lemma collected_associations names seen assocs st :
  collected names seen st →
  outcome_of (forOf assocs addAssociation st) = Returns tt →
  collected names (seen ++ assocs) (final (forOf assocs addAssociation st)).
Proof.
  revert seen st. induction assocs as [|a assocs IH]; intros seen st Hc; cbn [forOf].
  - intros _. by rewrite app_nil_r.
  - rewrite run_bind, addAssociation_registerDepending.
    destruct (outcome_of (registerDepending (listOwner a) (dependentModel a) st))
      as [[]|] eqn:Ho; rsimpl; [|done].
    intros Hrest. replace (seen ++ a :: assocs) with ((seen ++ [a]) ++ assocs)
      by (by rewrite <- app_assoc).
    apply IH; [|done]. by apply collected_registerDepending.
Qed.

Lemma collected_models names seen models st :
  collected names seen st →
  outcome_of (forOf models perModel st) = Returns tt →
  collected names (seen ++ flat_map associations models) (final (forOf models perModel st)).
Proof.
  revert seen st. induction models as [|model models IH]; intros seen st Hc;
    cbn [forOf flat_map].
  - intros _. by rewrite app_nil_r.
  - rewrite run_bind.
    destruct (outcome_of (perModel model st)) as [[]|] eqn:Ho; rsimpl; [|done].
    intros Hrest. rewrite app_assoc. apply IH; [|done].
    revert Ho. unfold perModel. rewrite run_bind.
    destruct (outcome_of (forOf (associations model) addAssociation st))
      as [[]|] eqn:Ha; rsimpl; [|done].
    intros _. rewrite run_bind, run_get. rsimpl.
    by apply collected_associations.
Qed.

(** X19.  When the constructor returns, the list of every model name in the
    map of depending models is what the associations owned by that model
    refer to - the targets of its BelongsTo and BelongsToMany, the sources
    of the HasOne and HasMany that target it - over all models in the
    order given, each name once, at its first occurrence. *)
Theorem X19_lists_in_order_of_discovery models st k :
  new_SequelizeChangeTracker models = Returns st →
  k ∈ map name models →
  dependingModelMap st !! k =
    Some (firsts (referredBy k (flat_map associations models))).
Proof.
  rewrite constructor_run. intros Hnew Hk.
  destruct (outcome_of (forOf models perModel (initial models))) as [[]|] eqn:Ho; [|done].
  injection Hnew as <-.
  assert (collected (map name models) [] (initial models)) as Hc.
  { intros k'. unfold initial. rsimpl. rewrite initial_map_lookup.
    by destruct (bool_decide _). }
  pose proof (collected_models _ [] models _ Hc Ho k) as Hfinal.
  by rewrite bool_decide_eq_true_2 in Hfinal.
Qed.

Lemma X19_witness :
  new_SequelizeChangeTracker [Message; User] = Returns messages_and_users ∧
  dependingModelMap messages_and_users !! "Message" =
    Some (firsts (referredBy "Message" (flat_map associations [Message; User]))).
Proof.
  split; [exact new_messages_and_users|].
  apply (X19_lists_in_order_of_discovery [Message; User] messages_and_users "Message"
           new_messages_and_users).
  apply (bool_decide_unpack _). vm_compute. exact I.
Defined.
